(** * Bezier splines: de Casteljau evaluation, curve sampling and
      control-point topology

    A shallow embedding of the repository's five Python scripts
    ([nb.py], [tc.py], [cb.py], [pb.py] and [lcexp.py], which repeats the
    evaluator and the sampler of [nb.py]) and the properties its
    specification states about them.

    Modelling conventions.

    - A numpy coordinate is a [float64].  The functions are written once
      over an interface [Scalar] that lists the arithmetic the scripts use
      ([+], [-], [*], [/], the conversion of a Python [int], the literal
      [0.5]).  Two implementations are given: [binary64] (IEEE 754 double
      precision, the kernel's primitive floats) and [rationals] (exact
      arithmetic on [Qc]).  Properties that hold by the shape of the
      computation are proved for every implementation.  The end-point
      properties are proved in [binary64], for finite coordinates and with
      [==] as equality: with an infinity or a NaN among the coordinates
      they fail.  In exact arithmetic (the laws [ExactArith], which the
      rationals satisfy) they hold on the nose.
    - A point [np.array([x, y])] is a record of two scalars.
    - A Python exception is a value [Raise e] of [result]; a loop is the
      combinator [for_], which stops at the first exception.  Of matplotlib
      the calls that can raise are kept: [ax.set_xlim] refuses a limit that
      is not finite.
    - The module-level list [control_points] that the event handlers mutate
      lives in a [world], threaded through the handlers by the monad [M]
      together with what was printed and what was plotted.  The mouse
      handlers also read and write the global [dragging_point]: they run on
      a [session], the [world] with that index. *)

From Stdlib Require Import String ZArith List Lia Bool QArith Qcanon Floats.
Import ListNotations.
Local Open Scope Z_scope.

(** ** Python values and control flow *)

Inductive exn : Type :=
| IndexError
| ZeroDivisionError
| ValueError.

Inductive result (A : Type) : Type :=
| Ok (a : A)
| Raise (e : exn).
Arguments Ok {A} a.
Arguments Raise {A} e.

Definition bind {A B : Type} (c : result A) (k : A -> result B) : result B :=
  match c with
  | Ok a => k a
  | Raise e => Raise e
  end.

Declare Scope result_scope.
Delimit Scope result_scope with result.
Notation "x <- c ;; k" := (bind c (fun x => k))
  (at level 61, c at next level, right associativity) : result_scope.

(** [len(xs)] *)
Definition len {A : Type} (xs : list A) : Z := Z.of_nat (List.length xs).

(** [xs[i]]: a negative index counts from the end; out of range raises. *)
Definition getitem {A : Type} (xs : list A) (i : Z) : result A :=
  let j := if i <? 0 then i + len xs else i in
  if (j <? 0) || (len xs <=? j) then Raise IndexError
  else match nth_error xs (Z.to_nat j) with
       | Some x => Ok x
       | None => Raise IndexError
       end.

(** [xs.insert(i, x)]: the index is clamped to [0 .. len(xs)], never raises. *)
Definition list_insert {A : Type} (xs : list A) (i : Z) (x : A) : list A :=
  let j := if i <? 0 then Z.max 0 (i + len xs) else Z.min i (len xs) in
  firstn (Z.to_nat j) xs ++ x :: skipn (Z.to_nat j) xs.

(** [xs.pop(i)]: the list without its element at [i]; out of range raises. *)
Definition list_pop {A : Type} (xs : list A) (i : Z) : result (list A) :=
  let j := if i <? 0 then i + len xs else i in
  if (j <? 0) || (len xs <=? j) then Raise IndexError
  else Ok (firstn (Z.to_nat j) xs ++ skipn (S (Z.to_nat j)) xs).

(** [range(n)]: empty when [n <= 0]. *)
Definition range (n : Z) : list Z := map Z.of_nat (seq 0 (Z.to_nat n)).

(** [for x in xs: s = body(x, s)], stopping at the first exception. *)
Fixpoint for_ {A S : Type} (xs : list A) (s : S) (body : A -> S -> result S)
  : result S :=
  match xs with
  | [] => Ok s
  | x :: rest =>
      match body x s with
      | Ok s' => for_ rest s' body
      | Raise e => Raise e
      end
  end.

(** [a / b] on two Python ints ([quot] is the quotient as a float). *)
Definition true_div {F : Type} (quot : Z -> Z -> F) (a b : Z) : result F :=
  if b =? 0 then Raise ZeroDivisionError else Ok (quot a b).

(** [max(xs)]: the first element, replaced in turn by every later element
    that is [>] the one kept so far; an empty [xs] raises. *)
Definition py_max {A : Type} (gt : A -> A -> bool) (xs : list A) : result A :=
  match xs with
  | [] => Raise ValueError
  | x :: rest => Ok (fold_left (fun kept item => if gt item kept then item else kept) rest x)
  end.

(** ** Scalars and points *)

Class Scalar (F : Type) : Type := {
  of_int : Z -> F;            (* float(i), as in [1 - t] or the literal [2.0] *)
  half : F;                   (* the literal [0.5] *)
  fadd : F -> F -> F;
  fsub : F -> F -> F;
  fmul : F -> F -> F;
  fdiv : F -> F -> F;
  int_div : Z -> Z -> F       (* [i / n] on ints, for n <> 0 *)
}.

(** The laws of exact arithmetic that the end-point properties use.  They
    hold in every field of characteristic 0.  In [binary64] they hold for
    finite values up to the sign of a zero, which is why the end-point
    properties are stated there with [==]. *)
Class ExactArith (F : Type) {SF : Scalar F} : Prop := {
  sub_1_0 : fsub (of_int 1) (of_int 0) = of_int 1;
  sub_1_1 : fsub (of_int 1) (of_int 1) = of_int 0;
  mul_1_l : forall x : F, fmul (of_int 1) x = x;
  mul_0_l : forall x : F, fmul (of_int 0) x = of_int 0;
  add_0_r : forall x : F, fadd x (of_int 0) = x;
  add_0_l : forall x : F, fadd (of_int 0) x = x;
  int_div_0_l : forall n : Z, n <> 0 -> int_div 0 n = of_int 0;
  int_div_diag : forall n : Z, n <> 0 -> int_div n n = of_int 1
}.

(** What fitting the limits of an axis to the data computes besides the
    arithmetic of [Scalar]. *)
Class Limits (F : Type) : Type := {
  fgt : F -> F -> bool;       (* [x > y] *)
  isfinite : F -> bool        (* [np.isfinite(x)] *)
}.

(** A limit handed to [set_xlim]: a Python [int] or a float. *)
Inductive limit (F : Type) : Type :=
| IntLimit (z : Z)
| FloatLimit (x : F).
Arguments IntLimit {F} z.
Arguments FloatLimit {F} x.

(** [ax.set_xlim(left, right)] raises on a limit that is a NaN or an
    infinity.  The limits it sets are presentation and are not kept. *)
Definition set_xlim {F : Type} {LF : Limits F} (left right : limit F)
  : result unit :=
  let finite_limit l :=
    match l with
    | IntLimit _ => true
    | FloatLimit x => isfinite x
    end in
  if finite_limit left && finite_limit right then Ok tt else Raise ValueError.

(** [np.array([x, y])] *)
Record point (F : Type) : Type := Pt { px : F; py : F }.
Arguments Pt {F} px py.
Arguments px {F} p.
Arguments py {F} p.

Section PointOps.
Context {F : Type} {SF : Scalar F}.

(** [c * p] for a scalar [c] *)
Definition scale (c : F) (p : point F) : point F :=
  Pt (fmul c (px p)) (fmul c (py p)).

(** [p + q] *)
Definition padd (p q : point F) : point F :=
  Pt (fadd (px p) (px q)) (fadd (py p) (py q)).

(** [p / c] for a scalar [c] *)
Definition pdiv (p : point F) (c : F) : point F :=
  Pt (fdiv (px p) c) (fdiv (py p) c).

(** [p[1] += c] *)
Definition add_y (p : point F) (c : F) : point F :=
  Pt (px p) (fadd (py p) c).

End PointOps.

(** ** The two implementations of scalars *)

(** Rationals: exact arithmetic. *)
#[export] Instance rationals : Scalar Qc := {|
  of_int := fun z => Q2Qc (inject_Z z);
  half := Q2Qc (1 # 2);
  fadd := Qcplus;
  fsub := Qcminus;
  fmul := Qcmult;
  fdiv := Qcdiv;
  int_div := fun a b => Qcdiv (Q2Qc (inject_Z a)) (Q2Qc (inject_Z b))
|}.

(** The rationals satisfy the laws of exact arithmetic. *)
#[export] Instance rationals_exact : ExactArith Qc.
Proof.
  constructor; cbn [of_int fsub fmul fadd int_div rationals].
  - apply Qc_is_canon. reflexivity.
  - apply Qc_is_canon. reflexivity.
  - intros x. change (Q2Qc (inject_Z 1)) with 1%Qc. apply Qcmult_1_l.
  - intros x. change (Q2Qc (inject_Z 0)) with 0%Qc. apply Qcmult_0_l.
  - intros x. change (Q2Qc (inject_Z 0)) with 0%Qc. apply Qcplus_0_r.
  - intros x. change (Q2Qc (inject_Z 0)) with 0%Qc. apply Qcplus_0_l.
  - intros n Hn. change (Q2Qc (inject_Z 0)) with 0%Qc. unfold Qcdiv. apply Qcmult_0_l.
  - intros n Hn. change (Q2Qc (inject_Z 1)) with 1%Qc. unfold Qcdiv.
    apply Qcmult_inv_r. intros E. apply Q2Qc_eq_iff in E.
    unfold Qeq, inject_Z in E. cbn in E. lia.
Qed.

(** Every rational is finite. *)
#[export] Instance rationals_limits : Limits Qc := {|
  fgt := fun x y => match Qccompare x y with Gt => true | _ => false end;
  isfinite := fun _ => true
|}.

(** IEEE 754 double precision.  [float_of_Z] rounds an integer to the nearest
    double; the quotient of two ints is the quotient of their doubles, which is
    Python's [a / b] as long as both are below [2^53] in absolute value. *)
Definition float_of_Z (z : Z) : float :=
  SF2Prim (binary_normalize prec emax z 0 false).

#[export] Instance binary64 : Scalar float := {|
  of_int := float_of_Z;
  half := 0.5%float;
  fadd := PrimFloat.add;
  fsub := PrimFloat.sub;
  fmul := PrimFloat.mul;
  fdiv := PrimFloat.div;
  int_div := fun a b => PrimFloat.div (float_of_Z a) (float_of_Z b)
|}.

(** [x > y] on two doubles is [y < x]; a comparison with a NaN is false. *)
#[export] Instance binary64_limits : Limits float := {|
  fgt := fun x y => PrimFloat.ltb y x;
  isfinite := PrimFloat.is_finite
|}.

(** ** The module state of the interactive scripts *)

Record world (F : Type) : Type := World {
  control_points : list (point F);    (* the global [control_points] *)
  plotted : list (list (point F));    (* the curves drawn on [ax] *)
  stdout : list string                (* what [print] wrote *)
}.
Arguments World {F} control_points plotted stdout.
Arguments control_points {F} w.
Arguments plotted {F} w.
Arguments stdout {F} w.

(** A handler: it may raise, and the world it leaves behind is kept either
    way (a mutation made before an exception stays made). *)
Definition M (F A : Type) : Type := world F -> result A * world F.

Section WorldMonad.
Context {F : Type}.

Definition ret {A : Type} (a : A) : M F A := fun w => (Ok a, w).

Definition wbind {A B : Type} (c : M F A) (k : A -> M F B) : M F B :=
  fun w =>
    match c w with
    | (Ok a, w') => k a w'
    | (Raise e, w') => (Raise e, w')
    end.

Definition lift {A : Type} (c : result A) : M F A := fun w => (c, w).

Definition get_control_points : M F (list (point F)) :=
  fun w => (Ok (control_points w), w).

Definition set_control_points (cps : list (point F)) : M F unit :=
  fun w => (Ok tt, World cps (plotted w) (stdout w)).

(** [print(msg)] *)
Definition print (msg : string) : M F unit :=
  fun w => (Ok tt, World (control_points w) (plotted w) (stdout w ++ [msg])).

(** [ax.clear()] *)
Definition ax_clear : M F unit :=
  fun w => (Ok tt, World (control_points w) [] (stdout w)).

(** [ax.plot(curve[:, 0], curve[:, 1], ...)] *)
Definition ax_plot (curve : list (point F)) : M F unit :=
  fun w => (Ok tt, World (control_points w) (plotted w ++ [curve]) (stdout w)).

(** [for x in xs: body(x)] in a handler *)
Fixpoint wfor {A : Type} (xs : list A) (body : A -> M F unit) : M F unit :=
  match xs with
  | [] => ret tt
  | x :: rest => wbind (body x) (fun _ => wfor rest body)
  end.

End WorldMonad.

Declare Scope world_scope.
Delimit Scope world_scope with world.
Notation "x <- c ;; k" := (wbind c (fun x => k))
  (at level 61, c at next level, right associativity) : world_scope.

(** ** Mouse events and the drag state *)

(** The axes of a figure: the plotting area [ax], or another one (a button). *)
Inductive axes : Type :=
| MainAxes
| OtherAxes.

(** A matplotlib mouse event.  [inaxes] is [None] outside every axes;
    [xdata] and [ydata] are the data coordinates of the pointer, which the
    handlers read only after they have checked [inaxes]. *)
Record mouse_event (F : Type) : Type := MouseEvent {
  inaxes : option axes;
  xdata : F;
  ydata : F
}.
Arguments MouseEvent {F} inaxes xdata ydata.
Arguments inaxes {F} m.
Arguments xdata {F} m.
Arguments ydata {F} m.

(** [event.inaxes == ax] *)
Definition is_ax (a : option axes) : bool :=
  match a with
  | Some MainAxes => true
  | _ => false
  end.

(** What picking a point computes besides the arithmetic of [Scalar]. *)
Class Metric (F : Type) : Type := {
  fsquare : F -> F;         (* [x ** 2] *)
  fsqrt : F -> F;           (* [np.sqrt(x)] *)
  flt : F -> F -> bool;     (* [x < y] *)
  pick_radius : F           (* the literal [0.2] *)
}.

(** In double precision the square root and the comparison are the IEEE
    ones.  [x ** 2] on a numpy double is the C library's [pow(x, 2.0)],
    which IEEE 754 does not fix to the last bit and which may differ from
    the product [x * x] by one unit in the last place: the squaring function
    is a parameter of the metric. *)
Definition binary64_metric (square : float -> float) : Metric float := {|
  fsquare := square;
  fsqrt := PrimFloat.sqrt;
  flt := PrimFloat.ltb;
  pick_radius := 0x1.999999999999ap-3%float    (* the double of [0.2] *)
|}.

(** The globals of an interactive script: the [world] and [dragging_point]
    ([None] when no point is being dragged). *)
Record session (F : Type) : Type := Session {
  scene : world F;
  dragging_point : option Z
}.
Arguments Session {F} scene dragging_point.
Arguments scene {F} s.
Arguments dragging_point {F} s.

(** A mouse handler. *)
Definition H (F A : Type) : Type := session F -> result A * session F.

(** A piece of a handler that leaves [dragging_point] alone. *)
Definition in_scene {F A : Type} (c : M F A) : H F A :=
  fun s =>
    let (r, w) := c (scene s) in
    (r, Session w (dragging_point s)).

(** [enumerate(xs)] *)
Definition enumerate {A : Type} (xs : list A) : list (Z * A) :=
  combine (range (len xs)) xs.

(** [for x in xs: if hit(x): s = new(x); break] *)
Fixpoint for_first {A S : Type} (xs : list A) (s : S) (hit : A -> bool)
  (new : A -> S) : S :=
  match xs with
  | [] => s
  | x :: rest => if hit x then new x else for_first rest s hit new
  end.

(** The list with the element at index [i] replaced (as [getitem], a
    negative index counts from the end; out of range nothing changes). *)
Definition replace_at {A : Type} (xs : list A) (i : Z) (x : A) : list A :=
  let j := if i <? 0 then i + len xs else i in
  if (j <? 0) || (len xs <=? j) then xs
  else firstn (Z.to_nat j) xs ++ x :: skipn (S (Z.to_nat j)) xs.

Section ArrayStores.
Context {F : Type}.

(** [xs[i][0] = v]: the array [xs[i]] is changed in place.  Every element of
    the list is an array of its own, as all the arrays are that the scripts
    put there. *)
Definition store_x (xs : list (point F)) (i : Z) (v : F)
  : result (list (point F)) :=
  bind (getitem xs i) (fun point => Ok (replace_at xs i (Pt v (py point)))).

(** [xs[i][1] = v] *)
Definition store_y (xs : list (point F)) (i : Z) (v : F)
  : result (list (point F)) :=
  bind (getitem xs i) (fun point => Ok (replace_at xs i (Pt (px point) v))).

End ArrayStores.

(** ** nb.py: a single curve of any degree *)

Module nb.
Section Defs.
Context {F : Type} {SF : Scalar F}.
Local Open Scope result_scope.

Definition de_casteljau_general (control_points : list (point F)) (t : F)
  : result (point F) :=
  let points := control_points in
  let num_levels := len points - 1 in
  points <- for_ (range num_levels) points (fun _level points =>
    for_ (range (len points - 1)) [] (fun i next_level_points =>
      a <- getitem points i ;;
      b <- getitem points (i + 1) ;;
      let new_point := padd (scale (fsub (of_int 1) t) a) (scale t b) in
      Ok (next_level_points ++ [new_point]))) ;;
  getitem points 0.

Definition generate_bezier_curve (control_points : list (point F))
  (num_points : Z) : result (list (point F)) :=
  for_ (range num_points) [] (fun i curve_points =>
    t <- true_div int_div i (num_points - 1) ;;
    point <- de_casteljau_general control_points t ;;
    Ok (curve_points ++ [point])).

(** The value the global [control_points] starts with. *)
Definition initial_control_points : list (point F) :=
  [Pt (of_int 1) (of_int 1); Pt (of_int 2) (of_int 3);
   Pt (of_int 4) (of_int 3); Pt (of_int 5) (of_int 1)].

Local Open Scope world_scope.

Definition get_degree : M F Z :=
  cps <- get_control_points ;;
  ret (len cps - 1).

(** Only the geometry of [draw_scene] is kept: the axes are cleared and the
    curve sampled at 100 parameters is plotted.  Markers, labels, limits and
    titles are presentation. *)
Definition draw_scene : M F unit :=
  _ <- ax_clear ;;
  _degree <- get_degree ;;
  cps <- get_control_points ;;
  curve <- lift (generate_bezier_curve cps 100) ;;
  ax_plot curve.

Definition increase_degree (event : unit) : M F unit :=
  cps <- get_control_points ;;
  last_point <- lift (getitem cps (-1)) ;;
  second_last_point <- lift (getitem cps (-2)) ;;
  let new_point := pdiv (padd second_last_point last_point) (of_int 2) in
  let new_point := add_y new_point half in
  _ <- set_control_points (list_insert cps (-1) new_point) ;;
  draw_scene.

Definition decrease_degree (event : unit) : M F unit :=
  cps <- get_control_points ;;
  if len cps <=? 2 then
    print "Cannot decrease degree below 1 (minimum 2 control points)"
  else
    cps' <- lift (list_pop cps (-2)) ;;
    _ <- set_control_points cps' ;;
    draw_scene.

Context {MF : Metric F}.

Definition on_press (event : mouse_event F) : H F unit :=
  fun s =>
    if negb (is_ax (inaxes event)) then (Ok tt, s)
    else
      let dragging_point :=
        for_first (enumerate (control_points (scene s))) (dragging_point s)
          (fun '(i, point) =>
             let distance :=
               fsqrt (fadd (fsquare (fsub (xdata event) (px point)))
                           (fsquare (fsub (ydata event) (py point)))) in
             flt distance pick_radius)
          (fun '(i, point) => Some i) in
      (Ok tt, Session (scene s) dragging_point).

Definition on_motion (event : mouse_event F) : H F unit :=
  fun s =>
    match dragging_point s with
    | None => (Ok tt, s)
    | Some i =>
        if negb (is_ax (inaxes event)) then (Ok tt, s)
        else
          in_scene
            (cps <- get_control_points ;;
             cps <- lift (store_x cps i (xdata event)) ;;
             _ <- set_control_points cps ;;
             cps <- get_control_points ;;
             cps <- lift (store_y cps i (ydata event)) ;;
             _ <- set_control_points cps ;;
             draw_scene) s
    end.

Definition on_release (event : mouse_event F) : H F unit :=
  fun s => (Ok tt, Session (scene s) None).

End Defs.
End nb.

(** ** cb.py: one cubic curve *)

Module cb.
Section Defs.
Context {F : Type} {SF : Scalar F}.
Local Open Scope result_scope.

Definition de_casteljau (p0 p1 p2 p3 : point F) (t : F) : point F :=
  let q0 := padd (scale (fsub (of_int 1) t) p0) (scale t p1) in
  let q1 := padd (scale (fsub (of_int 1) t) p1) (scale t p2) in
  let q2 := padd (scale (fsub (of_int 1) t) p2) (scale t p3) in
  let r0 := padd (scale (fsub (of_int 1) t) q0) (scale t q1) in
  let r1 := padd (scale (fsub (of_int 1) t) q1) (scale t q2) in
  let b := padd (scale (fsub (of_int 1) t) r0) (scale t r1) in
  b.

Definition generate_bezier_curve (p0 p1 p2 p3 : point F) (num_points : Z)
  : result (list (point F)) :=
  for_ (range num_points) [] (fun i curve_points =>
    t <- true_div int_div i (num_points - 1) ;;
    let point := de_casteljau p0 p1 p2 p3 t in
    Ok (curve_points ++ [point])).

End Defs.
End cb.

(** ** tc.py: one curve of degree 18 against six cubic segments *)

Module tc.
Section Defs.
Context {F : Type} {SF : Scalar F}.
Local Open Scope result_scope.

Definition de_casteljau_general (control_points : list (point F)) (t : F)
  : result (point F) :=
  let points := control_points in
  let num_levels := len points - 1 in
  points <- for_ (range num_levels) points (fun _level points =>
    for_ (range (len points - 1)) [] (fun i next_level_points =>
      a <- getitem points i ;;
      b <- getitem points (i + 1) ;;
      let new_point := padd (scale (fsub (of_int 1) t) a) (scale t b) in
      Ok (next_level_points ++ [new_point]))) ;;
  getitem points 0.

Definition de_casteljau_cubic (p0 p1 p2 p3 : point F) (t : F) : point F :=
  let q0 := padd (scale (fsub (of_int 1) t) p0) (scale t p1) in
  let q1 := padd (scale (fsub (of_int 1) t) p1) (scale t p2) in
  let q2 := padd (scale (fsub (of_int 1) t) p2) (scale t p3) in
  let r0 := padd (scale (fsub (of_int 1) t) q0) (scale t q1) in
  let r1 := padd (scale (fsub (of_int 1) t) q1) (scale t q2) in
  let b := padd (scale (fsub (of_int 1) t) r0) (scale t r1) in
  b.

Definition generate_higher_order_bezier (control_points : list (point F))
  (num_points : Z) : result (list (point F)) :=
  for_ (range num_points) [] (fun i curve_points =>
    t <- true_div int_div i (num_points - 1) ;;
    point <- de_casteljau_general control_points t ;;
    Ok (curve_points ++ [point])).

Definition generate_piecewise_bezier (control_points : list (point F))
  (num_points : Z) : result (list (point F)) :=
  let num_segments := (len control_points - 1) / 3 in
  for_ (range num_segments) [] (fun seg_idx all_curve_points =>
    let start_idx := seg_idx * 3 in
    p0 <- getitem control_points start_idx ;;
    p1 <- getitem control_points (start_idx + 1) ;;
    p2 <- getitem control_points (start_idx + 2) ;;
    p3 <- getitem control_points (start_idx + 3) ;;
    segment_points <- for_ (range num_points) [] (fun i segment_points =>
      t <- true_div int_div i (num_points - 1) ;;
      let point := de_casteljau_cubic p0 p1 p2 p3 t in
      Ok (segment_points ++ [point])) ;;
    Ok (all_curve_points ++ segment_points)).

End Defs.
End tc.

(** ** pb.py: a chain of cubic segments with shared end points *)

Module pb.
Section Defs.
Context {F : Type} {SF : Scalar F}.
Local Open Scope result_scope.

Definition de_casteljau (p0 p1 p2 p3 : point F) (t : F) : point F :=
  let q0 := padd (scale (fsub (of_int 1) t) p0) (scale t p1) in
  let q1 := padd (scale (fsub (of_int 1) t) p1) (scale t p2) in
  let q2 := padd (scale (fsub (of_int 1) t) p2) (scale t p3) in
  let r0 := padd (scale (fsub (of_int 1) t) q0) (scale t q1) in
  let r1 := padd (scale (fsub (of_int 1) t) q1) (scale t q2) in
  let b := padd (scale (fsub (of_int 1) t) r0) (scale t r1) in
  b.

Definition generate_bezier_curve (p0 p1 p2 p3 : point F) (num_points : Z)
  : result (list (point F)) :=
  for_ (range num_points) [] (fun i curve_points =>
    t <- true_div int_div i (num_points - 1) ;;
    let point := de_casteljau p0 p1 p2 p3 t in
    Ok (curve_points ++ [point])).

Local Open Scope world_scope.

Definition get_num_segments : M F Z :=
  cps <- get_control_points ;;
  ret ((len cps - 1) / 3).

Definition get_segment_control_points (segment_index : Z)
  : M F (point F * point F * point F * point F) :=
  cps <- get_control_points ;;
  let start_idx := segment_index * 3 in
  p0 <- lift (getitem cps start_idx) ;;
  p1 <- lift (getitem cps (start_idx + 1)) ;;
  p2 <- lift (getitem cps (start_idx + 2)) ;;
  p3 <- lift (getitem cps (start_idx + 3)) ;;
  ret (p0, p1, p2, p3).

Context {LF : Limits F}.

(** The two lines of [draw_scene] under [# Set axis properties] that can
    fail:
      [max_x = max(p[0] for p in control_points) + 1]
      [ax.set_xlim(0, max(max_x, 6))]
    [max] raises on no control point, [set_xlim] on a limit that is a NaN or
    an infinity.  [max(max_x, 6)] is [6] when [6 > max_x] and [max_x]
    otherwise. *)
Definition set_axis_properties (control_points : list (point F))
  : result unit :=
  (m <- py_max fgt (map px control_points) ;;
   let max_x := fadd m (of_int 1) in
   set_xlim (IntLimit 0)
     (if fgt (of_int 6) max_x then IntLimit 6 else FloatLimit max_x))%result.

(** Of [draw_scene] the geometry and the failures are kept: the axes are
    cleared, each segment's curve, sampled at 100 parameters, is plotted,
    and the limits of the x axis are fitted to the control points.  Colours,
    markers and labels are presentation, and the other axis settings are
    constants. *)
Definition draw_scene : M F unit :=
  _ <- ax_clear ;;
  num_segments <- get_num_segments ;;
  _ <- wfor (range num_segments) (fun seg_idx =>
    ps <- get_segment_control_points seg_idx ;;
    let '(p0, p1, p2, p3) := ps in
    curve <- lift (generate_bezier_curve p0 p1 p2 p3 100) ;;
    ax_plot curve) ;;
  cps <- get_control_points ;;
  lift (set_axis_properties cps).

Definition add_segment (event : unit) : M F unit :=
  cps <- get_control_points ;;
  last_point <- lift (getitem cps (-1)) ;;
  let new_p1 := padd last_point (Pt (of_int 1) half) in
  let new_p2 := padd last_point (Pt (of_int 2) half) in
  let new_p3 := padd last_point (Pt (of_int 3) (of_int 0)) in
  _ <- set_control_points (cps ++ [new_p1]) ;;
  cps <- get_control_points ;;
  _ <- set_control_points (cps ++ [new_p2]) ;;
  cps <- get_control_points ;;
  _ <- set_control_points (cps ++ [new_p3]) ;;
  draw_scene.

Context {MF : Metric F}.

Definition on_press (event : mouse_event F) : H F unit :=
  fun s =>
    if negb (is_ax (inaxes event)) then (Ok tt, s)
    else
      let dragging_point :=
        for_first (enumerate (control_points (scene s))) (dragging_point s)
          (fun '(i, point) =>
             let distance :=
               fsqrt (fadd (fsquare (fsub (xdata event) (px point)))
                           (fsquare (fsub (ydata event) (py point)))) in
             flt distance pick_radius)
          (fun '(i, point) => Some i) in
      (Ok tt, Session (scene s) dragging_point).

Definition on_motion (event : mouse_event F) : H F unit :=
  fun s =>
    match dragging_point s with
    | None => (Ok tt, s)
    | Some i =>
        if negb (is_ax (inaxes event)) then (Ok tt, s)
        else
          in_scene
            (cps <- get_control_points ;;
             cps <- lift (store_x cps i (xdata event)) ;;
             _ <- set_control_points cps ;;
             cps <- get_control_points ;;
             cps <- lift (store_y cps i (ydata event)) ;;
             _ <- set_control_points cps ;;
             draw_scene) s
    end.

Definition on_release (event : mouse_event F) : H F unit :=
  fun s => (Ok tt, Session (scene s) None).

End Defs.
End pb.

(** ** lcexp.py: how far moving the first control point is felt *)

Module lcexp.
Section Defs.
Context {F : Type} {SF : Scalar F}.
Local Open Scope result_scope.

Definition de_casteljau_general (control_points : list (point F)) (t : F)
  : result (point F) :=
  let points := control_points in
  let num_levels := len points - 1 in
  points <- for_ (range num_levels) points (fun _level points =>
    for_ (range (len points - 1)) [] (fun i next_level_points =>
      a <- getitem points i ;;
      b <- getitem points (i + 1) ;;
      let new_point := padd (scale (fsub (of_int 1) t) a) (scale t b) in
      Ok (next_level_points ++ [new_point]))) ;;
  getitem points 0.

Definition generate_bezier_curve (control_points : list (point F))
  (num_points : Z) : result (list (point F)) :=
  for_ (range num_points) [] (fun i curve_points =>
    t <- true_div int_div i (num_points - 1) ;;
    point <- de_casteljau_general control_points t ;;
    Ok (curve_points ++ [point])).

End Defs.
End lcexp.

(** ** Specification-side functions *)

Section Levels.
Context {F : Type} {SF : Scalar F}.

(** The interpolation [(1 - t) * a + t * b] of the evaluators. *)
Definition lerp (t : F) (a b : point F) : point F :=
  padd (scale (fsub (of_int 1) t) a) (scale t b).

(** One level of de Casteljau's scheme: consecutive pairs interpolated. *)
Fixpoint level (t : F) (points : list (point F)) : list (point F) :=
  match points with
  | [] => []
  | a :: rest =>
      match rest with
      | [] => []
      | b :: _ => lerp t a b :: level t rest
      end
  end.

(** All levels: [len - 1] of them. *)
Definition levels (t : F) (points : list (point F)) : list (point F) :=
  Nat.iter (List.length points - 1) (level t) points.

(** [points[3k : 3k + 4]], the control points of segment [k]. *)
Definition segment (points : list (point F)) (k : nat) : list (point F) :=
  firstn 4 (skipn (3 * k) points).

(** The parameters [i / (n - 1)] for [i] in [range(n)]. *)
Definition params (n : Z) : list F :=
  map (fun i => int_div i (n - 1)) (range n).

(** The point the evaluator returns on at least one control point: the one
    left after all levels (the origin stands in when there is no point). *)
Definition curve_point (points : list (point F)) (t : F) : point F :=
  match levels t points with
  | p :: _ => p
  | [] => Pt (of_int 0) (of_int 0)
  end.

(** Segment [k] sampled at [n] parameters. *)
Definition segment_curve (points : list (point F)) (n : Z) (k : Z)
  : list (point F) :=
  map (curve_point (segment points (Z.to_nat k))) (params n).

End Levels.

(** *** Double precision: finite values and numeric equality *)

Definition sf_finite (x : spec_float) : bool :=
  match x with
  | S754_zero _ | S754_finite _ _ _ => true
  | _ => false
  end.

Definition sf_zero (x : spec_float) : bool :=
  match x with
  | S754_zero _ => true
  | _ => false
  end.

(** The double [1.0]: mantissa [2^52], exponent [-52]. *)
Definition sf_one : spec_float := S754_finite false 4503599627370496 (-52).

(** A double that is neither an infinity nor a NaN. *)
Definition finite (x : float) : Prop := sf_finite (Prim2SF x) = true.

(** The same double, or two zeros whatever their signs: what Python's [==]
    tells of two finite doubles. *)
Definition same_value (x a : float) : Prop :=
  x = a \/ (sf_zero (Prim2SF x) = true /\ sf_zero (Prim2SF a) = true).

Definition finite_point (p : point float) : Prop :=
  finite (px p) /\ finite (py p).

Definition same_point (p a : point float) : Prop :=
  same_value (px p) (px a) /\ same_value (py p) (py a).

(** [p == a] on two points, on both coordinates. *)
Definition point_eqb (p a : point float) : bool :=
  PrimFloat.eqb (px p) (px a) && PrimFloat.eqb (py p) (py a).

(** *** Picking and button clicks *)

Section Picking.
Context {F : Type} {SF : Scalar F} {MF : Metric F}.

(** The test of [on_press]: the pointer is less than [0.2] away from the
    point. *)
Definition near (event : mouse_event F) (point : point F) : bool :=
  flt (fsqrt (fadd (fsquare (fsub (xdata event) (px point)))
                   (fsquare (fsub (ydata event) (py point)))))
      pick_radius.

End Picking.

(** The two buttons of [nb.py]. *)
Inductive click : Type :=
| IncreaseDegree
| DecreaseDegree.

Section Clicks.
Context {F : Type} {SF : Scalar F}.

(** The buttons clicked one after the other. *)
Definition clicks (cs : list click) : M F unit :=
  wfor cs (fun c =>
    match c with
    | IncreaseDegree => nb.increase_degree tt
    | DecreaseDegree => nb.decrease_degree tt
    end).

(** The button of [pb.py] clicked [k] times: the world after [k] calls of
    [add_segment], each made on the world the call before left, whether
    that call returned or raised. *)
Definition add_segments {LF : Limits F} (k : nat) (w : world F) : world F :=
  Nat.iter k (fun w => snd (pb.add_segment tt w)) w.

End Clicks.

Section Maps.
Context {F : Type} {SF : Scalar F}.

(** An affine map of the plane: [(x, y)] goes to
    [(a x + b y + e, c x + d y + f)]. *)
Definition affine (a b c d e f : F) (p : point F) : point F :=
  Pt (fadd (fadd (fmul a (px p)) (fmul b (py p))) e)
     (fadd (fadd (fmul c (px p)) (fmul d (py p))) f).

End Maps.

(** ** Lists, ranges and loops *)

Lemma len_nonneg {A : Type} (xs : list A) : 0 <= len xs.
Proof. unfold len. lia. Qed.

Lemma len_app {A : Type} (xs ys : list A) : len (xs ++ ys) = len xs + len ys.
Proof. unfold len. rewrite length_app. lia. Qed.

Lemma len_cons {A : Type} (x : A) (xs : list A) : len (x :: xs) = len xs + 1.
Proof. unfold len. simpl List.length. lia. Qed.

Lemma range_length (n : Z) : List.length (range n) = Z.to_nat n.
Proof. unfold range. now rewrite length_map, length_seq. Qed.

Lemma range_In (n i : Z) : In i (range n) <-> 0 <= i < n.
Proof.
  unfold range. rewrite in_map_iff. split.
  - intros [k [<- Hk]]. apply in_seq in Hk. lia.
  - intros Hi. exists (Z.to_nat i). split; [lia|]. apply in_seq. lia.
Qed.

Lemma range_nth (n : Z) (k : nat) (d : Z) :
  (k < Z.to_nat n)%nat -> nth k (range n) d = Z.of_nat k.
Proof.
  intros Hk. unfold range.
  rewrite nth_indep with (d' := Z.of_nat 0) by (rewrite length_map, length_seq; lia).
  rewrite map_nth, seq_nth by lia. reflexivity.
Qed.

Lemma range_nonpos (n : Z) : n <= 0 -> range n = [].
Proof. intros Hn. unfold range. replace (Z.to_nat n) with 0%nat by lia. reflexivity. Qed.

Lemma getitem_nonneg {A : Type} (xs : list A) (i : Z) :
  0 <= i ->
  getitem xs i =
  if len xs <=? i then Raise IndexError
  else match nth_error xs (Z.to_nat i) with
       | Some x => Ok x
       | None => Raise IndexError
       end.
Proof.
  intros Hi. unfold getitem.
  assert (E : (i <? 0) = false) by (apply Z.ltb_ge; lia).
  rewrite E. cbv zeta iota. rewrite E. reflexivity.
Qed.

Lemma getitem_nth {A : Type} (xs : list A) (i : Z) (d : A) :
  0 <= i < len xs -> getitem xs i = Ok (nth (Z.to_nat i) xs d).
Proof.
  intros Hi. rewrite getitem_nonneg by lia.
  replace (len xs <=? i) with false by (symmetry; apply Z.leb_gt; lia).
  destruct (nth_error xs (Z.to_nat i)) eqn:E.
  - now rewrite (nth_error_nth _ _ d E).
  - apply nth_error_None in E. unfold len in Hi. lia.
Qed.

Lemma getitem_neg {A : Type} (xs : list A) (i : Z) :
  - len xs <= i < 0 -> getitem xs i = getitem xs (i + len xs).
Proof.
  intros Hi. rewrite (getitem_nonneg xs (i + len xs)) by lia.
  unfold getitem.
  assert (E : (i <? 0) = true) by (apply Z.ltb_lt; lia).
  rewrite E. cbv zeta iota.
  replace (i + len xs <? 0) with false by (symmetry; apply Z.ltb_ge; lia).
  reflexivity.
Qed.

Lemma getitem_nil {A : Type} (i : Z) : getitem (@nil A) i = Raise IndexError.
Proof.
  unfold getitem. change (len (@nil A)) with 0. rewrite Z.add_0_r.
  assert (E : (if i <? 0 then i else i) = i) by now destruct (i <? 0).
  rewrite E. cbv zeta. destruct (Z.ltb_spec i 0); cbn [orb]; [reflexivity|].
  replace (0 <=? i) with true by (symmetry; apply Z.leb_le; lia).
  reflexivity.
Qed.

Lemma nth_last {A : Type} (xs : list A) (d : A) :
  nth (List.length xs - 1) xs d = last xs d.
Proof.
  induction xs as [|x xs IH]; [reflexivity|].
  destruct xs as [|y xs]; [reflexivity|].
  change (last (x :: y :: xs) d) with (last (y :: xs) d).
  rewrite <- IH. cbn [List.length].
  replace (S (S (List.length xs)) - 1)%nat with (S (S (List.length xs) - 1)) by lia.
  reflexivity.
Qed.

Lemma getitem_last {A : Type} (xs : list A) (d : A) :
  xs <> [] -> getitem xs (-1) = Ok (last xs d).
Proof.
  intros Hne.
  assert (0 < len xs)
    by (destruct xs; [congruence | rewrite len_cons; pose proof (len_nonneg xs); lia]).
  rewrite getitem_neg by lia.
  rewrite getitem_nth with (d := d) by lia.
  rewrite <- nth_last. do 2 f_equal. unfold len. lia.
Qed.

Lemma getitem_app_l {A : Type} (xs ys : list A) (i : Z) :
  0 <= i < len xs -> getitem (xs ++ ys) i = getitem xs i.
Proof.
  intros Hi. destruct xs as [|x xs]; [cbn in Hi; lia|].
  rewrite !getitem_nth with (d := x) by (rewrite ?len_app; pose proof (len_nonneg ys); lia).
  rewrite app_nth1 by (unfold len in Hi; lia). reflexivity.
Qed.

(** [xs[-2]] is there exactly when there are two elements. *)
Lemma getitem_neg2 {A : Type} (xs : list A) (x d : A) :
  getitem xs (-2) = Ok x ->
  (2 <= List.length xs)%nat /\ x = nth (List.length xs - 2) xs d.
Proof.
  intros H.
  assert (Hlen : (2 <= List.length xs)%nat).
  { destruct xs as [|a [|b rest]]; [discriminate H | discriminate H | cbn [List.length]; lia]. }
  split; [exact Hlen|].
  assert (E : getitem xs (-2) = Ok (nth (List.length xs - 2) xs d)).
  { rewrite getitem_neg by (unfold len; lia).
    rewrite getitem_nth with (d := d) by (unfold len; lia).
    do 2 f_equal. unfold len. lia. }
  congruence.
Qed.

(** A loop whose body appends one block per item builds the concatenation. *)
Lemma for_extend {A B : Type} (xs : list A) (g : A -> list B)
  (body : A -> list B -> result (list B)) :
  (forall x acc, In x xs -> body x acc = Ok (acc ++ g x)) ->
  forall acc, for_ xs acc body = Ok (acc ++ concat (map g xs)).
Proof.
  induction xs as [|x xs IH]; intros Hbody acc; cbn [for_ map concat].
  - now rewrite app_nil_r.
  - rewrite Hbody by (now left).
    rewrite IH by (intros; apply Hbody; now right).
    now rewrite app_assoc.
Qed.

(** A loop whose body appends one value per item builds the mapped list. *)
Lemma for_append {A B : Type} (xs : list A) (g : A -> B)
  (body : A -> list B -> result (list B)) :
  (forall x acc, In x xs -> body x acc = Ok (acc ++ [g x])) ->
  forall acc, for_ xs acc body = Ok (acc ++ map g xs).
Proof.
  intros Hbody acc.
  rewrite for_extend with (g := fun x => [g x]) by exact Hbody.
  f_equal. f_equal. induction xs as [|x xs IH]; cbn; [reflexivity|].
  f_equal. apply IH. intros; apply Hbody; now right.
Qed.

(** A loop whose body ignores the item iterates a function. *)
Lemma for_iter {A S : Type} (xs : list A) (h : S -> S)
  (body : A -> S -> result S) :
  (forall x s, body x s = Ok (h s)) ->
  forall s, for_ xs s body = Ok (Nat.iter (List.length xs) h s).
Proof.
  intros Hbody. induction xs as [|x xs IH]; intros s; cbn [for_ List.length].
  - reflexivity.
  - rewrite Hbody, IH. now rewrite Nat.iter_succ_r.
Qed.

(** Dropping the last element [k] times, or the first. *)
Lemma iter_removelast {A : Type} (k : nat) (l : list A) :
  Nat.iter k (@removelast A) l = firstn (List.length l - k) l.
Proof.
  induction k as [|k IH].
  - cbn [Nat.iter nat_rect]. rewrite Nat.sub_0_r. now rewrite firstn_all.
  - rewrite Nat.iter_succ, IH, removelast_firstn_len.
    rewrite firstn_firstn, length_firstn. f_equal. lia.
Qed.

Lemma iter_tl {A : Type} (k : nat) (l : list A) :
  Nat.iter k (@tl A) l = skipn k l.
Proof.
  revert l. induction k as [|k IH]; intros l; [reflexivity|].
  rewrite Nat.iter_succ_r, IH. now destruct l; [destruct k|].
Qed.

Lemma skipn_pred_last {A : Type} (l : list A) (d : A) :
  l <> [] -> skipn (List.length l - 1) l = [last l d].
Proof.
  intros Hne. induction l as [|a rest IH]; [congruence|].
  destruct rest as [|b rest]; [reflexivity|].
  change (last (a :: b :: rest) d) with (last (b :: rest) d).
  rewrite <- IH by congruence. cbn [List.length].
  replace (S (S (List.length rest)) - 1)%nat with (S (S (List.length rest) - 1)) by lia.
  reflexivity.
Qed.

Lemma iter_ext {A : Type} (f g : A -> A) (k : nat) (x : A) :
  (forall y, f y = g y) -> Nat.iter k f x = Nat.iter k g x.
Proof.
  intros Hfg. induction k as [|k IH]; [reflexivity|].
  now rewrite !Nat.iter_succ, IH, Hfg.
Qed.

Lemma last_In {A : Type} (l : list A) (d : A) : l <> [] -> In (last l d) l.
Proof.
  intros Hne. induction l as [|a rest IH]; [congruence|].
  destruct rest as [|b rest]; [now left|].
  right. apply IH. congruence.
Qed.

Lemma Forall_removelast {A : Type} (P : A -> Prop) (l : list A) :
  Forall P l -> Forall P (removelast l).
Proof.
  intros H. induction H as [|a l Ha Hl IH]; [constructor|].
  destruct l as [|b l]; [constructor|].
  change (removelast (a :: b :: l)) with (a :: removelast (b :: l)).
  now constructor.
Qed.

Lemma Forall_tl {A : Type} (P : A -> Prop) (l : list A) :
  Forall P l -> Forall P (tl l).
Proof. intros H. destruct l; [constructor | now inversion H]. Qed.

(** ** The evaluator, level by level *)

Section Evaluator.
Context {F : Type} {SF : Scalar F}.

Lemma level_length (t : F) (points : list (point F)) :
  List.length (level t points) = (List.length points - 1)%nat.
Proof.
  induction points as [|a rest IH]; [reflexivity|].
  destruct rest as [|b rest]; [reflexivity|].
  change (level t (a :: b :: rest)) with (lerp t a b :: level t (b :: rest)).
  cbn [List.length] in *. rewrite IH. lia.
Qed.

Lemma level_nth (t : F) (points : list (point F)) (k : nat) (d : point F) :
  (S k < List.length points)%nat ->
  nth k (level t points) d = lerp t (nth k points d) (nth (S k) points d).
Proof.
  revert k. induction points as [|a rest IH]; intros k Hk; [cbn in Hk; lia|].
  destruct rest as [|b rest]; [cbn in Hk; lia|].
  change (level t (a :: b :: rest)) with (lerp t a b :: level t (b :: rest)).
  destruct k as [|k]; [reflexivity|].
  cbn [nth]. rewrite IH by (cbn [List.length] in *; lia). reflexivity.
Qed.

Lemma iter_level_length (t : F) (k : nat) (points : list (point F)) :
  List.length (Nat.iter k (level t) points) = (List.length points - k)%nat.
Proof.
  induction k as [|k IH]; [cbn; lia|].
  rewrite Nat.iter_succ, level_length, IH. lia.
Qed.

Lemma levels_length (t : F) (points : list (point F)) :
  points <> [] -> List.length (levels t points) = 1%nat.
Proof.
  intros Hne. unfold levels. rewrite iter_level_length.
  destruct points; [congruence | cbn [List.length]; lia].
Qed.

(** The inner loop of the evaluators computes one level. *)
Lemma inner_loop_level (t : F) (points : list (point F)) :
  for_ (range (len points - 1)) []
    (fun i next_level_points =>
       bind (getitem points i) (fun a =>
       bind (getitem points (i + 1)) (fun b =>
       let new_point := padd (scale (fsub (of_int 1) t) a) (scale t b) in
       Ok (next_level_points ++ [new_point]))))
  = Ok (level t points).
Proof.
  destruct points as [|d rest] eqn:E; [reflexivity|]. rewrite <- E.
  assert (Hlen : 0 < len points) by (subst; rewrite len_cons; pose proof (len_nonneg rest); lia).
  clear E.
  rewrite for_append with
    (g := fun i => lerp t (nth (Z.to_nat i) points d) (nth (S (Z.to_nat i)) points d)).
  - cbn [app]. f_equal.
    apply nth_ext with (d := d) (d' := d).
    + rewrite length_map, range_length, level_length. unfold len. lia.
    + intros k Hk. rewrite length_map, range_length in Hk.
      rewrite nth_indep with (d' := lerp t (nth (Z.to_nat 0) points d) (nth (S (Z.to_nat 0)) points d))
        by (rewrite length_map, range_length; lia).
      rewrite (map_nth (fun i => lerp t (nth (Z.to_nat i) points d) (nth (S (Z.to_nat i)) points d))).
      rewrite range_nth by lia. rewrite Nat2Z.id.
      rewrite level_nth by (unfold len in *; lia). reflexivity.
  - intros i acc Hi. apply range_In in Hi.
    rewrite getitem_nth with (d := d) by lia.
    rewrite getitem_nth with (d := d) by lia.
    cbn [bind]. unfold lerp.
    replace (Z.to_nat (i + 1)) with (S (Z.to_nat i)) by lia. reflexivity.
Qed.

(** The general evaluator is the first point left after all levels. *)
Lemma nb_general_levels (control_points : list (point F)) (t : F) :
  nb.de_casteljau_general control_points t = getitem (levels t control_points) 0.
Proof.
  unfold nb.de_casteljau_general.
  rewrite for_iter with (h := level t) by (intros; apply inner_loop_level).
  cbn [bind]. rewrite range_length. unfold levels, len.
  do 2 f_equal. lia.
Qed.

(** [tc.py] repeats the evaluator of [nb.py] word for word. *)
Lemma tc_general_is_nb (control_points : list (point F)) (t : F) :
  tc.de_casteljau_general control_points t
  = nb.de_casteljau_general control_points t.
Proof. reflexivity. Qed.

Lemma cubic_copies_agree (p0 p1 p2 p3 : point F) (t : F) :
  cb.de_casteljau p0 p1 p2 p3 t = tc.de_casteljau_cubic p0 p1 p2 p3 t
  /\ pb.de_casteljau p0 p1 p2 p3 t = tc.de_casteljau_cubic p0 p1 p2 p3 t.
Proof. split; reflexivity. Qed.

(** On at least one point the evaluator returns. *)
Lemma general_total (control_points : list (point F)) (t : F) :
  control_points <> [] ->
  exists p, levels t control_points = [p]
            /\ nb.de_casteljau_general control_points t = Ok p.
Proof.
  intros Hne. pose proof (levels_length t control_points Hne) as Hl.
  rewrite nb_general_levels.
  destruct (levels t control_points) as [|p [|q rest]]; try discriminate Hl.
  exists p. split; reflexivity.
Qed.

Lemma general_nil (t : F) :
  nb.de_casteljau_general (@nil (point F)) t = Raise IndexError.
Proof. reflexivity. Qed.

Lemma general_single (p : point F) (t : F) :
  nb.de_casteljau_general [p] t = Ok p.
Proof. reflexivity. Qed.

(** Three levels on four points, spelled out. *)
Lemma levels_four (p0 p1 p2 p3 : point F) (t : F) :
  levels t [p0; p1; p2; p3] = [tc.de_casteljau_cubic p0 p1 p2 p3 t].
Proof. reflexivity. Qed.

End Evaluator.

(** ** End points under exact arithmetic *)

Section Endpoints.
Context {F : Type} {SF : Scalar F} {EA : ExactArith F}.

Lemma lerp_0 (a b : point F) : lerp (of_int 0) a b = a.
Proof.
  destruct a as [ax ay], b as [bx b_y]. unfold lerp, padd, scale. cbn [px py].
  now rewrite sub_1_0, !mul_1_l, !mul_0_l, !add_0_r.
Qed.

Lemma lerp_1 (a b : point F) : lerp (of_int 1) a b = b.
Proof.
  destruct a as [ax ay], b as [bx b_y]. unfold lerp, padd, scale. cbn [px py].
  now rewrite sub_1_1, !mul_1_l, !mul_0_l, !add_0_l.
Qed.

(** At [t = 0] a level drops the last point, at [t = 1] the first. *)
Lemma level_0 (points : list (point F)) :
  level (of_int 0) points = removelast points.
Proof.
  induction points as [|a rest IH]; [reflexivity|].
  destruct rest as [|b rest]; [reflexivity|].
  change (level (of_int 0) (a :: b :: rest))
    with (lerp (of_int 0) a b :: level (of_int 0) (b :: rest)).
  rewrite IH, lerp_0. reflexivity.
Qed.

Lemma level_1 (points : list (point F)) :
  level (of_int 1) points = tl points.
Proof.
  induction points as [|a rest IH]; [reflexivity|].
  destruct rest as [|b rest]; [reflexivity|].
  change (level (of_int 1) (a :: b :: rest))
    with (lerp (of_int 1) a b :: level (of_int 1) (b :: rest)).
  rewrite IH, lerp_1. reflexivity.
Qed.

Lemma levels_0 (first : point F) (rest : list (point F)) :
  levels (of_int 0) (first :: rest) = [first].
Proof.
  unfold levels. rewrite (iter_ext _ (@removelast _) _ _ level_0), iter_removelast.
  cbn [List.length].
  now replace (S (List.length rest) - (S (List.length rest) - 1))%nat with 1%nat by lia.
Qed.

Lemma levels_1 (points : list (point F)) (d : point F) :
  points <> [] -> levels (of_int 1) points = [last points d].
Proof.
  intros Hne. unfold levels.
  rewrite (iter_ext _ (@tl _) _ _ level_1), iter_tl.
  now apply skipn_pred_last.
Qed.

Lemma general_at_0 (first : point F) (rest : list (point F)) :
  nb.de_casteljau_general (first :: rest) (of_int 0) = Ok first.
Proof. rewrite nb_general_levels, levels_0. reflexivity. Qed.

Lemma general_at_1 (points : list (point F)) (d : point F) :
  points <> [] -> nb.de_casteljau_general points (of_int 1) = Ok (last points d).
Proof. intros Hne. rewrite nb_general_levels, (levels_1 _ d Hne). reflexivity. Qed.

End Endpoints.

(** ** The samplers *)

Section Samplers.
Context {F : Type} {SF : Scalar F}.

Lemma general_curve_point (control_points : list (point F)) (t : F) :
  control_points <> [] ->
  nb.de_casteljau_general control_points t = Ok (curve_point control_points t).
Proof.
  intros Hne. destruct (general_total control_points t Hne) as [p [Hl Hp]].
  unfold curve_point. now rewrite Hl.
Qed.

Lemma cubic_curve_point (p0 p1 p2 p3 : point F) (t : F) :
  tc.de_casteljau_cubic p0 p1 p2 p3 t = curve_point [p0; p1; p2; p3] t.
Proof. unfold curve_point. now rewrite levels_four. Qed.

Lemma true_div_ok (i n : Z) :
  n <> 0 -> true_div (int_div (F := F)) i n = Ok (int_div i n).
Proof.
  intros Hn. unfold true_div. now replace (n =? 0) with false by (symmetry; apply Z.eqb_neq; lia).
Qed.

Lemma params_length (n : Z) : len (params (F := F) n) = Z.max 0 n.
Proof. unfold params, len. rewrite length_map, range_length. lia. Qed.

Lemma params_nth (n i : Z) (d : F) :
  0 <= i < n -> nth (Z.to_nat i) (params n) d = int_div i (n - 1).
Proof.
  intros Hi. unfold params.
  rewrite nth_indep with (d' := int_div 0 (n - 1)) by (rewrite length_map, range_length; lia).
  rewrite (map_nth (fun i => int_div i (n - 1))), range_nth by lia.
  f_equal. lia.
Qed.

(** The sampler of one curve, for every number of points but 1. *)
Lemma sample_general (control_points : list (point F)) (n : Z) :
  control_points <> [] -> n <> 1 ->
  nb.generate_bezier_curve control_points n
  = Ok (map (curve_point control_points) (params n)).
Proof.
  intros Hne Hn. unfold nb.generate_bezier_curve, params.
  rewrite map_map.
  rewrite for_append with (g := fun i => curve_point control_points (int_div i (n - 1))).
  - reflexivity.
  - intros i acc _. rewrite true_div_ok by lia. cbn [bind].
    rewrite general_curve_point by exact Hne. reflexivity.
Qed.

(** One point asked for: the parameter [0 / 0] raises. *)
Lemma sample_one_point (control_points : list (point F)) :
  nb.generate_bezier_curve control_points 1 = Raise ZeroDivisionError.
Proof. reflexivity. Qed.

Lemma tc_sampler_is_nb (control_points : list (point F)) (n : Z) :
  tc.generate_higher_order_bezier control_points n
  = nb.generate_bezier_curve control_points n.
Proof. reflexivity. Qed.

(** The sampler of one cubic, for every number of points but 1. *)
Lemma sample_cubic (p0 p1 p2 p3 : point F) (n : Z) :
  n <> 1 ->
  cb.generate_bezier_curve p0 p1 p2 p3 n
  = Ok (map (curve_point [p0; p1; p2; p3]) (params n)).
Proof.
  intros Hn. unfold cb.generate_bezier_curve, params.
  rewrite map_map.
  rewrite for_append with (g := fun i => curve_point [p0; p1; p2; p3] (int_div i (n - 1))).
  - reflexivity.
  - intros i acc _. rewrite true_div_ok by lia. cbn [bind].
    now rewrite <- cubic_curve_point.
Qed.

Lemma pb_sampler_is_cb (p0 p1 p2 p3 : point F) (n : Z) :
  pb.generate_bezier_curve p0 p1 p2 p3 n = cb.generate_bezier_curve p0 p1 p2 p3 n.
Proof. reflexivity. Qed.

(** A slice of four points in range. *)
Lemma skipn_nth_cons {A : Type} (i : nat) (xs : list A) (d : A) :
  (i < List.length xs)%nat -> skipn i xs = nth i xs d :: skipn (S i) xs.
Proof.
  revert xs. induction i as [|i IH]; intros [|x xs] Hi; cbn [List.length] in Hi; try lia.
  - reflexivity.
  - cbn [skipn nth]. apply IH. lia.
Qed.

Lemma segment_four (points : list (point F)) (k : nat) (d : point F) :
  (3 * k + 3 < List.length points)%nat ->
  segment points k
  = [nth (3 * k) points d; nth (3 * k + 1) points d;
     nth (3 * k + 2) points d; nth (3 * k + 3) points d].
Proof.
  intros Hk. unfold segment.
  rewrite (skipn_nth_cons (3 * k) points d) by lia.
  rewrite (skipn_nth_cons (S (3 * k)) points d) by lia.
  rewrite (skipn_nth_cons (S (S (3 * k))) points d) by lia.
  rewrite (skipn_nth_cons (S (S (S (3 * k)))) points d) by lia.
  cbn [firstn].
  replace (3 * k + 1)%nat with (S (3 * k)) by lia.
  replace (3 * k + 2)%nat with (S (S (3 * k))) by lia.
  replace (3 * k + 3)%nat with (S (S (S (3 * k)))) by lia.
  reflexivity.
Qed.

(** The piecewise sampler, for every list and every number of points but 1:
    the segments [0 .. (len - 1) // 3 - 1] sampled in order. *)
Lemma sample_piecewise (control_points : list (point F)) (n : Z) :
  n <> 1 ->
  tc.generate_piecewise_bezier control_points n
  = Ok (concat (map (segment_curve control_points n)
                    (range ((len control_points - 1) / 3)))).
Proof.
  intros Hn. unfold tc.generate_piecewise_bezier.
  destruct control_points as [|d rest] eqn:E; [reflexivity|]. rewrite <- E.
  assert (Hlen : 0 < len control_points)
    by (subst; rewrite len_cons; pose proof (len_nonneg rest); lia).
  clear E rest.
  rewrite for_extend with (g := segment_curve control_points n); [reflexivity|].
  intros k acc Hk. apply range_In in Hk.
  assert (Hm : 3 * ((len control_points - 1) / 3) <= len control_points - 1)
    by (apply Z.mul_div_le; lia).
  rewrite !getitem_nth with (d := d) by lia. cbn [bind].
  rewrite for_append with
    (g := fun i => tc.de_casteljau_cubic
                     (nth (Z.to_nat (k * 3)) control_points d)
                     (nth (Z.to_nat (k * 3 + 1)) control_points d)
                     (nth (Z.to_nat (k * 3 + 2)) control_points d)
                     (nth (Z.to_nat (k * 3 + 3)) control_points d)
                     (int_div i (n - 1)))
    by (intros i acc' _; rewrite true_div_ok by lia; reflexivity).
  cbn [bind app]. do 2 f_equal.
  unfold segment_curve, params. rewrite map_map.
  rewrite segment_four with (d := d) by (unfold len in *; lia).
  apply map_ext. intros i. rewrite cubic_curve_point.
  replace (Z.to_nat (k * 3)) with (3 * Z.to_nat k)%nat by lia.
  replace (Z.to_nat (k * 3 + 1)) with (3 * Z.to_nat k + 1)%nat by lia.
  replace (Z.to_nat (k * 3 + 2)) with (3 * Z.to_nat k + 2)%nat by lia.
  replace (Z.to_nat (k * 3 + 3)) with (3 * Z.to_nat k + 3)%nat by lia.
  reflexivity.
Qed.

Lemma segment_curve_length (control_points : list (point F)) (n k : Z) :
  len (segment_curve control_points n k) = Z.max 0 n.
Proof. unfold segment_curve, len. rewrite length_map. apply params_length. Qed.

Lemma concat_blocks_length {A B : Type} (g : A -> list B) (xs : list A) (n : Z) :
  (forall x, len (g x) = n) -> len (concat (map g xs)) = len xs * n.
Proof.
  intros Hg. induction xs as [|x xs IH]; [reflexivity|].
  cbn [map concat]. rewrite len_app, len_cons, IH, Hg. lia.
Qed.

End Samplers.

(** ** The event handlers *)

Section Handlers.
Context {F : Type} {SF : Scalar F}.

(** Redrawing a polygon of at least one point plots its curve and returns. *)
Lemma nb_draw_scene_ok (w : world F) :
  control_points w <> [] ->
  nb.draw_scene w
  = (Ok tt, World (control_points w)
                  [map (curve_point (control_points w)) (params 100)]
                  (stdout w)).
Proof.
  intros Hne.
  unfold nb.draw_scene, nb.get_degree, wbind, ax_clear, get_control_points, ret, lift, ax_plot.
  cbn [control_points plotted stdout].
  rewrite sample_general by (trivial; lia). reflexivity.
Qed.

(** [insert(-1, x)] puts [x] just before the last element. *)
Lemma list_insert_before_last {A : Type} (xs : list A) (x : A) :
  xs <> [] ->
  list_insert xs (-1) x
  = firstn (List.length xs - 1) xs ++ x :: skipn (List.length xs - 1) xs.
Proof.
  intros Hne. unfold list_insert.
  assert (0 < len xs)
    by (destruct xs; [congruence | rewrite len_cons; pose proof (len_nonneg xs); lia]).
  replace (-1 <? 0) with true by reflexivity. cbv zeta iota.
  replace (Z.to_nat (Z.max 0 (-1 + len xs))) with (List.length xs - 1)%nat
    by (unfold len in *; lia).
  reflexivity.
Qed.

(** [pop(-2)] after [insert(-1, x)] gives the list back. *)
Lemma pop_after_insert {A : Type} (xs : list A) (x : A) :
  (2 <= List.length xs)%nat ->
  list_pop (list_insert xs (-1) x) (-2) = Ok xs.
Proof.
  intros Hlen.
  rewrite list_insert_before_last by (destruct xs; [cbn in Hlen; lia | congruence]).
  set (front := firstn (List.length xs - 1) xs).
  set (back := skipn (List.length xs - 1) xs).
  assert (Hfront : List.length front = (List.length xs - 1)%nat)
    by (unfold front; rewrite length_firstn; lia).
  assert (Hback : List.length back = 1%nat)
    by (unfold back; rewrite length_skipn; lia).
  assert (Hxs : xs = front ++ back) by (symmetry; apply firstn_skipn).
  unfold list_pop.
  assert (Hl : len (front ++ x :: back) = Z.of_nat (List.length xs) + 1)
    by (unfold len; rewrite length_app; cbn [List.length]; lia).
  rewrite Hl. replace (-2 <? 0) with true by reflexivity. cbv zeta iota.
  replace (-2 + (Z.of_nat (List.length xs) + 1) <? 0) with false
    by (symmetry; apply Z.ltb_ge; lia).
  replace (Z.of_nat (List.length xs) + 1 <=? -2 + (Z.of_nat (List.length xs) + 1))
    with false by (symmetry; apply Z.leb_gt; lia).
  cbn [orb].
  replace (Z.to_nat (-2 + (Z.of_nat (List.length xs) + 1)))
    with (List.length front + 0)%nat by lia.
  rewrite firstn_app_2. cbn [firstn]. rewrite app_nil_r.
  replace (S (List.length front + 0)) with (List.length front + 1)%nat by lia.
  rewrite skipn_app, skipn_all2 by lia.
  replace (List.length front + 1 - List.length front)%nat with 1%nat by lia.
  cbn [skipn app]. now rewrite <- Hxs.
Qed.

(** Degree elevation on at least two points. *)
Lemma increase_degree_ok (w : world F) (d : point F) :
  (2 <= List.length (control_points w))%nat ->
  let cps := control_points w in
  let last_point := last cps d in
  let second_last_point := nth (List.length cps - 2) cps d in
  let new_point :=
    add_y (pdiv (padd second_last_point last_point) (of_int 2)) half in
  let cps' := list_insert cps (-1) new_point in
  nb.increase_degree tt w
  = (Ok tt, World cps' [map (curve_point cps') (params 100)] (stdout w)).
Proof.
  intros Hlen cps last_point second_last_point new_point cps'.
  assert (Hne : cps <> []) by (intros E; unfold cps in E; rewrite E in Hlen; cbn in Hlen; lia).
  unfold nb.increase_degree, wbind, get_control_points, lift, set_control_points.
  fold cps. rewrite (getitem_last cps d Hne).
  rewrite getitem_neg by (unfold len, cps; lia).
  rewrite getitem_nth with (d := d) by (unfold len, cps; lia).
  replace (Z.to_nat (-2 + len cps)) with (List.length cps - 2)%nat by (unfold len; lia).
  fold last_point second_last_point new_point cps'.
  rewrite nb_draw_scene_ok; cbn [control_points plotted stdout]; [reflexivity|].
  unfold cps'. rewrite list_insert_before_last by exact Hne.
  now destruct (firstn (List.length cps - 1) cps).
Qed.

(** Degree reduction on at least three points. *)
Lemma decrease_degree_ok (w : world F) (cps' : list (point F)) :
  (3 <= List.length (control_points w))%nat ->
  list_pop (control_points w) (-2) = Ok cps' ->
  cps' <> [] ->
  nb.decrease_degree tt w
  = (Ok tt, World cps' [map (curve_point cps') (params 100)] (stdout w)).
Proof.
  intros Hlen Hpop Hne.
  unfold nb.decrease_degree, wbind, get_control_points, lift, set_control_points.
  replace (len (control_points w) <=? 2) with false
    by (symmetry; apply Z.leb_gt; unfold len; lia).
  rewrite Hpop. rewrite nb_draw_scene_ok; cbn [control_points plotted stdout]; trivial.
Qed.

Context {LF : Limits F}.

(** A loop of drawing steps that plot one curve each. *)
Lemma wfor_plots {A : Type} (xs : list A) (body : A -> M F unit)
  (g : A -> list (point F)) (cps : list (point F)) (out : list string) :
  (forall x curves, In x xs ->
     body x (World cps curves out) = (Ok tt, World cps (curves ++ [g x]) out)) ->
  forall curves,
    wfor xs body (World cps curves out)
    = (Ok tt, World cps (curves ++ map g xs) out).
Proof.
  induction xs as [|x xs IH]; intros Hbody curves.
  - cbn [wfor map]. now rewrite app_nil_r.
  - cbn [wfor map]. unfold wbind at 1. rewrite Hbody by (now left).
    rewrite IH by (intros; apply Hbody; now right).
    now rewrite <- app_assoc.
Qed.

(** Fitting the limits returns or raises [ValueError], nothing else. *)
Lemma set_axis_properties_cases (cps : list (point F)) :
  pb.set_axis_properties cps = Ok tt
  \/ pb.set_axis_properties cps = Raise ValueError.
Proof.
  unfold pb.set_axis_properties, py_max, set_xlim.
  destruct (map px cps) as [|x rest]; [now right|]. cbn [bind].
  match goal with |- context [if ?c then Ok tt else _] => destruct c end;
    [now left | now right].
Qed.

Lemma set_axis_properties_nil :
  pb.set_axis_properties (@nil (point F)) = Raise ValueError.
Proof. reflexivity. Qed.

(** Redrawing a chain plots one curve per complete segment, then fits the
    limits of the x axis, which is where it can fail. *)
Lemma pb_draw_scene_ok (w : world F) :
  pb.draw_scene w
  = (pb.set_axis_properties (control_points w),
     World (control_points w)
       (map (segment_curve (control_points w) 100)
            (range ((len (control_points w) - 1) / 3)))
       (stdout w)).
Proof.
  destruct w as [cps pl out]. cbn [control_points stdout].
  unfold pb.draw_scene, wbind at 1 2, ax_clear, pb.get_num_segments, wbind at 1,
    get_control_points, ret. cbn [control_points plotted stdout].
  unfold wbind at 1.
  rewrite wfor_plots with (g := segment_curve cps 100).
  - unfold wbind, lift. cbn [control_points plotted stdout app]. reflexivity.
  - intros k curves Hk. apply range_In in Hk.
    destruct cps as [|d rest] eqn:E; [cbn in Hk; lia|]. rewrite <- E in *.
    assert (Hlen : 0 < len cps)
      by (subst; rewrite len_cons; pose proof (len_nonneg rest); lia).
    assert (Hm : 3 * ((len cps - 1) / 3) <= len cps - 1) by (apply Z.mul_div_le; lia).
    unfold pb.get_segment_control_points, wbind, get_control_points, lift, ret, ax_plot.
    cbn [control_points plotted stdout].
    rewrite !getitem_nth with (d := d) by lia.
    rewrite pb_sampler_is_cb, sample_cubic by lia.
    unfold segment_curve.
    rewrite segment_four with (d := d) by (unfold len in *; lia).
    replace (Z.to_nat (k * 3)) with (3 * Z.to_nat k)%nat by lia.
    replace (Z.to_nat (k * 3 + 1)) with (3 * Z.to_nat k + 1)%nat by lia.
    replace (Z.to_nat (k * 3 + 2)) with (3 * Z.to_nat k + 2)%nat by lia.
    replace (Z.to_nat (k * 3 + 3)) with (3 * Z.to_nat k + 3)%nat by lia.
    reflexivity.
Qed.

(** Appending a segment to a chain with at least one point: the three
    points are appended, then the scene is drawn. *)
Lemma add_segment_ok (w : world F) (last_point : point F) :
  getitem (control_points w) (-1) = Ok last_point ->
  let cps' :=
    control_points w
    ++ [padd last_point (Pt (of_int 1) half);
        padd last_point (Pt (of_int 2) half);
        padd last_point (Pt (of_int 3) (of_int 0))] in
  pb.add_segment tt w
  = (pb.set_axis_properties cps',
     World cps' (map (segment_curve cps' 100) (range ((len cps' - 1) / 3)))
       (stdout w)).
Proof.
  intros Hlast cps'.
  unfold pb.add_segment, wbind, get_control_points, lift, set_control_points.
  rewrite Hlast. cbn [control_points plotted stdout].
  rewrite pb_draw_scene_ok. cbn [control_points plotted stdout].
  rewrite <- !app_assoc. reflexivity.
Qed.

End Handlers.

(** ** First and last samples *)

Section Samples.
Context {F : Type} {SF : Scalar F}.

Lemma sampled_getitem {B : Type} (f : F -> B) (n i : Z) :
  0 <= i < n ->
  getitem (map f (params n)) i = Ok (f (int_div i (n - 1))).
Proof.
  intros Hi.
  rewrite getitem_nth with (d := f (int_div 0 (n - 1)))
    by (unfold len; rewrite length_map; fold (len (params (F := F) n));
        rewrite params_length; lia).
  rewrite map_nth, params_nth by lia. reflexivity.
Qed.

Lemma sampled_last {B : Type} (f : F -> B) (n : Z) :
  1 <= n ->
  getitem (map f (params n)) (-1) = Ok (f (int_div (n - 1) (n - 1))).
Proof.
  intros Hn.
  assert (Hl : len (map f (params n)) = n)
    by (unfold len; rewrite length_map; fold (len (params (F := F) n));
        rewrite params_length; lia).
  rewrite getitem_neg by lia. rewrite Hl.
  replace (-1 + n) with (n - 1) by lia.
  apply sampled_getitem. lia.
Qed.

Lemma nth_blocks (control_points : list (point F)) (n : Z) (m k : nat) :
  (k < m)%nat ->
  nth k (map (segment_curve control_points n) (range (Z.of_nat m))) []
  = segment_curve control_points n (Z.of_nat k).
Proof.
  intros Hk.
  rewrite nth_indep with (d' := segment_curve control_points n 0)
    by (rewrite length_map, range_length; lia).
  rewrite map_nth, range_nth by lia. reflexivity.
Qed.

Context {EA : ExactArith F}.

Lemma curve_point_0 (first : point F) (rest : list (point F)) :
  curve_point (first :: rest) (of_int 0) = first.
Proof. unfold curve_point. now rewrite levels_0. Qed.

Lemma curve_point_1 (points : list (point F)) (d : point F) :
  points <> [] -> curve_point points (of_int 1) = last points d.
Proof. intros Hne. unfold curve_point. now rewrite (levels_1 points d Hne). Qed.

(** A sampled segment starts at its first control point and ends at its
    last. *)
Lemma segment_curve_ends (control_points : list (point F)) (n : Z) (k : nat)
  (d : point F) :
  2 <= n -> (3 * k + 3 < List.length control_points)%nat ->
  getitem (segment_curve control_points n (Z.of_nat k)) 0
  = Ok (nth (3 * k) control_points d)
  /\ getitem (segment_curve control_points n (Z.of_nat k)) (-1)
     = Ok (nth (3 * k + 3) control_points d).
Proof.
  intros Hn Hk. unfold segment_curve. rewrite Nat2Z.id.
  rewrite sampled_getitem, sampled_last by lia.
  rewrite int_div_0_l, int_div_diag by lia.
  rewrite segment_four with (d := d) by exact Hk.
  rewrite curve_point_0, curve_point_1 with (d := d) by discriminate.
  split; reflexivity.
Qed.

End Samples.

(** ** Trailing points of a chain *)

Section Trailing.
Context {F : Type} {SF : Scalar F}.

Lemma segment_firstn (points : list (point F)) (j k : nat) :
  (3 * k + 3 < j)%nat -> (j <= List.length points)%nat ->
  segment (firstn j points) k = segment points k.
Proof.
  intros Hk Hj. destruct points as [|d rest] eqn:E; [cbn in Hj; lia|]. rewrite <- E in *.
  clear E rest.
  rewrite segment_four with (d := d) by (rewrite length_firstn; lia).
  rewrite segment_four with (d := d) by lia.
  rewrite !nth_firstn.
  replace (3 * k <? j)%nat with true by (symmetry; apply Nat.ltb_lt; lia).
  replace (3 * k + 1 <? j)%nat with true by (symmetry; apply Nat.ltb_lt; lia).
  replace (3 * k + 2 <? j)%nat with true by (symmetry; apply Nat.ltb_lt; lia).
  replace (3 * k + 3 <? j)%nat with true by (symmetry; apply Nat.ltb_lt; lia).
  reflexivity.
Qed.

Lemma complete_segments_bound (points : list (point F)) :
  points <> [] ->
  0 <= (len points - 1) / 3 /\ 3 * ((len points - 1) / 3) + 1 <= len points.
Proof.
  intros Hne.
  assert (0 < len points)
    by (destruct points; [congruence | rewrite len_cons; pose proof (len_nonneg points); lia]).
  split; [apply Z.div_pos; lia|].
  pose proof (Z.mul_div_le (len points - 1) 3). lia.
Qed.

End Trailing.

(** ** End points in double precision *)

(** Multiplying by [1.0] is exact, multiplying a finite double by [0.0] gives
    a zero, and adding a zero changes at most the sign of a zero. *)
Lemma Prim2SF_1 : Prim2SF 1 = sf_one.
Proof. vm_compute. reflexivity. Qed.

Lemma Prim2SF_0 : Prim2SF 0 = S754_zero false.
Proof. vm_compute. reflexivity. Qed.

Lemma digits2_shift52 (m : positive) :
  Zpos (digits2_pos (4503599627370496 * m)) = Zpos (digits2_pos m) + 52.
Proof. cbn [Pos.mul digits2_pos]. lia. Qed.

Lemma iter_shr_52 (m : positive) :
  iter_pos shr_1 52 (Build_shr_record (Zpos (4503599627370496 * m)) false false)
  = Build_shr_record (Zpos m) false false.
Proof. reflexivity. Qed.

Lemma SFmul_one_l (x : spec_float) :
  valid_binary x = true -> SF64mul sf_one x = x.
Proof.
  destruct x as [s|s| |s m e]; try reflexivity.
  cbn [SpecFloat.valid_binary]. unfold bounded, canonical_mantissa. intros Hv.
  apply andb_prop in Hv. destruct Hv as [Hc Hb].
  apply Z.eqb_eq in Hc.
  unfold sf_one, SF64mul, SFmul. unfold binary_round_aux, shr_fexp.
  cbn [Zdigits2 shr_record_of_loc]. rewrite digits2_shift52.
  replace (Z.pos (digits2_pos m) + 52 + (-52 + e)) with (Z.pos (digits2_pos m) + e) by lia.
  rewrite Hc. replace (e - (-52 + e)) with 52 by lia.
  cbn [shr]. rewrite iter_shr_52.
  cbn [shr_m loc_of_shr_record round_nearest_even Zdigits2 shr_record_of_loc].
  replace (-52 + e + 52) with e by lia. rewrite Hc, Z.sub_diag. cbn [shr shr_m].
  rewrite Hb. now destruct s.
Qed.

Lemma float_mul_1_l (x : float) : (1 * x)%float = x.
Proof.
  apply Prim2SF_inj. rewrite mul_spec, Prim2SF_1.
  apply SFmul_one_l, Prim2SF_valid.
Qed.

Lemma float_mul_0_l (x : float) :
  finite x -> sf_zero (Prim2SF (0 * x)%float) = true.
Proof.
  unfold finite. intros Hx. rewrite mul_spec, Prim2SF_0.
  destruct (Prim2SF x); try discriminate Hx; reflexivity.
Qed.

Lemma same_value_refl (x : float) : same_value x x.
Proof. now left. Qed.

Lemma same_value_trans (x y z : float) :
  same_value x y -> same_value y z -> same_value x z.
Proof.
  intros [-> | [Hx Hy]] [-> | [Hy' Hz]].
  - now left.
  - right. now split.
  - right. now split.
  - right. now split.
Qed.

Lemma same_value_finite (x a : float) :
  same_value x a -> finite a -> finite x.
Proof.
  intros [-> | [Hx _]] Ha; [exact Ha|].
  unfold finite. now destruct (Prim2SF x).
Qed.

Lemma float_add_zero_r (x z : float) :
  finite x -> sf_zero (Prim2SF z) = true -> same_value (x + z)%float x.
Proof.
  unfold finite, same_value. intros Hx Hz.
  destruct (Prim2SF x) as [sx|sx| |sx mx ex] eqn:Ex; try discriminate Hx;
    destruct (Prim2SF z) as [sz|sz| |sz mz ez] eqn:Ez; try discriminate Hz.
  - right. rewrite add_spec, Ex, Ez. split; [|reflexivity].
    now destruct sx, sz.
  - left. apply Prim2SF_inj. rewrite add_spec, Ex, Ez. reflexivity.
Qed.

Lemma float_add_zero_l (z x : float) :
  finite x -> sf_zero (Prim2SF z) = true -> same_value (z + x)%float x.
Proof.
  unfold finite, same_value. intros Hx Hz.
  destruct (Prim2SF x) as [sx|sx| |sx mx ex] eqn:Ex; try discriminate Hx;
    destruct (Prim2SF z) as [sz|sz| |sz mz ez] eqn:Ez; try discriminate Hz.
  - right. rewrite add_spec, Ex, Ez. split; [|reflexivity].
    now destruct sx, sz.
  - left. apply Prim2SF_inj. rewrite add_spec, Ex, Ez. reflexivity.
Qed.

Lemma SFeqb_refl (x : spec_float) : sf_finite x = true -> SFeqb x x = true.
Proof.
  destruct x as [s|s| |s m e]; try discriminate; intros _; [reflexivity|].
  unfold SFeqb, SFcompare.
  rewrite Z.compare_refl, Pos.compare_cont_refl. now destruct s.
Qed.

Lemma same_value_eqb (x a : float) :
  finite a -> same_value x a -> PrimFloat.eqb x a = true.
Proof.
  intros Ha [-> | [Hx Hz]]; rewrite eqb_spec.
  - now apply SFeqb_refl.
  - destruct (Prim2SF x); try discriminate Hx.
    destruct (Prim2SF a); try discriminate Hz. reflexivity.
Qed.

(** One interpolation at [t = 0] keeps the first value, at [t = 1] the
    second. *)
Lemma float_lerp_0 (x a y : float) :
  same_value x a -> finite a -> finite y ->
  same_value ((1 - 0) * x + 0 * y)%float a.
Proof.
  intros Hxa Ha Hy.
  replace (1 - 0)%float with 1%float by (vm_compute; reflexivity).
  rewrite float_mul_1_l.
  apply same_value_trans with (y := x); [|exact Hxa].
  apply float_add_zero_r.
  - exact (same_value_finite x a Hxa Ha).
  - now apply float_mul_0_l.
Qed.

Lemma float_lerp_1 (x y b : float) :
  finite x -> same_value y b -> finite b ->
  same_value ((1 - 1) * x + 1 * y)%float b.
Proof.
  intros Hx Hyb Hb.
  replace (1 - 1)%float with 0%float by (vm_compute; reflexivity).
  rewrite float_mul_1_l.
  apply same_value_trans with (y := y); [|exact Hyb].
  apply float_add_zero_l.
  - exact (same_value_finite y b Hyb Hb).
  - now apply float_mul_0_l.
Qed.

Lemma same_point_refl (p : point float) : same_point p p.
Proof. split; apply same_value_refl. Qed.

Lemma same_point_finite (p a : point float) :
  same_point p a -> finite_point a -> finite_point p.
Proof.
  intros [Hx Hy] [Fx Fy]. split; eapply same_value_finite; eassumption.
Qed.

Lemma same_point_eqb (p a : point float) :
  finite_point a -> same_point p a -> point_eqb p a = true.
Proof.
  intros [Fx Fy] [Hx Hy]. unfold point_eqb.
  now rewrite !same_value_eqb.
Qed.

Lemma lerp_0_same (x a y b : point float) :
  same_point x a -> finite_point a -> same_point y b -> finite_point b ->
  same_point (lerp 0%float x y) a.
Proof.
  intros [Hx Hy] [Fax Fay] Hyb Fb.
  destruct (same_point_finite y b Hyb Fb) as [Fyx Fyy].
  split; cbn [lerp padd scale px py fadd fmul fsub of_int binary64];
    change (float_of_Z 1) with 1%float; now apply float_lerp_0.
Qed.

Lemma lerp_1_same (x a y b : point float) :
  same_point x a -> finite_point a -> same_point y b -> finite_point b ->
  same_point (lerp 1%float x y) b.
Proof.
  intros Hxa Fa [Hx Hy] [Fbx Fby].
  destruct (same_point_finite x a Hxa Fa) as [Fxx Fxy].
  split; cbn [lerp padd scale px py fadd fmul fsub of_int binary64];
    change (float_of_Z 1) with 1%float; now apply float_lerp_1.
Qed.

Lemma level_0_same (points ref : list (point float)) :
  Forall2 same_point points ref -> Forall finite_point ref ->
  Forall2 same_point (level 0%float points) (removelast ref).
Proof.
  intros H. induction H as [|x a xs rs Hxa Hrest IH]; intros Hf; [constructor|].
  inversion Hf as [|? ? Fa Frs]; subst.
  destruct Hrest as [|y b ys bs Hyb Hrest']; [constructor|].
  inversion Frs as [|? ? Fb Fbs]; subst.
  change (level 0%float (x :: y :: ys))
    with (lerp 0%float x y :: level 0%float (y :: ys)).
  change (removelast (a :: b :: bs)) with (a :: removelast (b :: bs)).
  constructor; [now apply lerp_0_same with (b := b) | now apply IH].
Qed.

Lemma level_1_same (points ref : list (point float)) :
  Forall2 same_point points ref -> Forall finite_point ref ->
  Forall2 same_point (level 1%float points) (tl ref).
Proof.
  intros H. induction H as [|x a xs rs Hxa Hrest IH]; intros Hf; [constructor|].
  inversion Hf as [|? ? Fa Frs]; subst.
  destruct Hrest as [|y b ys bs Hyb Hrest']; [constructor|].
  inversion Frs as [|? ? Fb Fbs]; subst.
  change (level 1%float (x :: y :: ys))
    with (lerp 1%float x y :: level 1%float (y :: ys)).
  cbn [tl]. constructor.
  - now apply lerp_1_same with (a := a).
  - apply (IH Frs).
Qed.

Lemma iter_level_0_same (k : nat) (points : list (point float)) :
  Forall finite_point points ->
  Forall2 same_point (Nat.iter k (level 0%float) points)
                     (Nat.iter k (@removelast _) points)
  /\ Forall finite_point (Nat.iter k (@removelast _) points).
Proof.
  intros Hf. induction k as [|k [IH1 IH2]].
  - split; [|exact Hf]. cbn. clear Hf.
    induction points; constructor; [apply same_point_refl | assumption].
  - rewrite !Nat.iter_succ. split.
    + now apply level_0_same.
    + now apply Forall_removelast.
Qed.

Lemma iter_level_1_same (k : nat) (points : list (point float)) :
  Forall finite_point points ->
  Forall2 same_point (Nat.iter k (level 1%float) points)
                     (Nat.iter k (@tl _) points)
  /\ Forall finite_point (Nat.iter k (@tl _) points).
Proof.
  intros Hf. induction k as [|k [IH1 IH2]].
  - split; [|exact Hf]. cbn. clear Hf.
    induction points; constructor; [apply same_point_refl | assumption].
  - rewrite !Nat.iter_succ. split.
    + now apply level_1_same.
    + now apply Forall_tl.
Qed.

Lemma levels_0_same (first_point : point float) (rest : list (point float)) :
  Forall finite_point (first_point :: rest) ->
  exists r0, levels 0%float (first_point :: rest) = [r0]
             /\ same_point r0 first_point.
Proof.
  intros Hf.
  destruct (iter_level_0_same (List.length (first_point :: rest) - 1) _ Hf) as [H0 _].
  rewrite iter_removelast in H0.
  replace (List.length (first_point :: rest) - (List.length (first_point :: rest) - 1))%nat
    with 1%nat in H0 by (cbn [List.length]; lia).
  cbn [firstn] in H0. fold (levels 0%float (first_point :: rest)) in H0.
  destruct (levels 0%float (first_point :: rest)) as [|r0 l0]; inversion H0; subst.
  match goal with H : Forall2 _ l0 [] |- _ => inversion H; subst end.
  exists r0. now split.
Qed.

Lemma levels_1_same (points : list (point float)) (d : point float) :
  points <> [] -> Forall finite_point points ->
  exists r1, levels 1%float points = [r1] /\ same_point r1 (last points d).
Proof.
  intros Hne Hf.
  destruct (iter_level_1_same (List.length points - 1) _ Hf) as [H1 _].
  rewrite iter_tl, (skipn_pred_last points d Hne) in H1.
  fold (levels 1%float points) in H1.
  destruct (levels 1%float points) as [|r1 l1]; inversion H1; subst.
  match goal with H : Forall2 _ l1 [] |- _ => inversion H; subst end.
  exists r1. now split.
Qed.

(** ** Parameters and shared points in double precision *)

(** An integer below [2^53] converts to a double exactly, so [0 / k] is
    [0.0] and [k / k] is [1.0]. *)
Lemma binary_round_aux_canonical (s : bool) (m : positive) (e : Z) :
  bounded prec emax m e = true ->
  binary_round_aux prec emax s (Zpos m) e loc_Exact = S754_finite s m e.
Proof.
  unfold bounded, canonical_mantissa. intros Hv.
  apply andb_prop in Hv. destruct Hv as [Hc Hb]. apply Z.eqb_eq in Hc.
  unfold binary_round_aux, shr_fexp.
  cbn [Zdigits2 shr_record_of_loc]. rewrite Hc, Z.sub_diag.
  cbn [shr shr_m loc_of_shr_record round_nearest_even Zdigits2 shr_record_of_loc].
  rewrite Hc, Z.sub_diag. cbn [shr shr_m]. now rewrite Hb.
Qed.

Lemma digits2_iter_xO (p sh : positive) :
  Zpos (digits2_pos (Pos.iter xO p sh)) = Zpos (digits2_pos p) + Zpos sh.
Proof.
  induction sh as [|sh IH] using Pos.peano_ind.
  - cbn [Pos.iter digits2_pos]. lia.
  - rewrite Pos.iter_succ. cbn [digits2_pos]. lia.
Qed.

Lemma digits2_pos_size (p : positive) : digits2_pos p = Pos.size p.
Proof. induction p; cbn [digits2_pos Pos.size]; congruence. Qed.

Lemma digits2_pos_bound (p : positive) (n : Z) :
  0 <= n -> Zpos p < 2 ^ n -> Zpos (digits2_pos p) <= n.
Proof.
  intros Hn Hp. rewrite digits2_pos_size.
  pose proof (Pos.size_le p) as Hle.
  apply Z.nlt_ge. intros Hlt.
  assert (H2 : 2 ^ (n + 1) <= 2 ^ Zpos (Pos.size p)) by (apply Z.pow_le_mono_r; lia).
  rewrite Z.pow_add_r in H2 by lia.
  assert (H3 : 2 ^ Zpos (Pos.size p) <= 2 * Zpos p).
  { apply Pos2Z.pos_le_pos in Hle. rewrite Pos2Z.inj_pow in Hle. lia. }
  lia.
Qed.

Lemma float_of_Z_finite (k : Z) :
  1 <= k < 2 ^ 53 ->
  exists m e, Prim2SF (float_of_Z k) = S754_finite false m e.
Proof.
  intros Hk. destruct k as [|p|p]; try lia.
  pose proof (digits2_pos_bound p 53 ltac:(lia) (proj2 Hk)) as Hd.
  unfold float_of_Z. cbn [binary_normalize]. unfold binary_round.
  assert (Hfexp : fexp prec emax (Zpos (digits2_pos p) + 0) = Zpos (digits2_pos p) - 53).
  { unfold fexp, SpecFloat.emin, prec, emax. lia. }
  rewrite Hfexp. unfold shl_align.
  destruct (Zpos (digits2_pos p) - 53 - 0) as [|sh|sh] eqn:Esh; try lia.
  - assert (Hb : bounded prec emax p 0 = true).
    { unfold bounded, canonical_mantissa. rewrite Hfexp.
      apply andb_true_intro. split; [apply Z.eqb_eq; lia | reflexivity]. }
    rewrite binary_round_aux_canonical by exact Hb.
    exists p, 0. apply Prim2SF_SF2Prim. exact Hb.
  - assert (Hb : bounded prec emax (Pos.iter xO p sh) (Zpos (digits2_pos p) - 53) = true).
    { unfold bounded, canonical_mantissa. rewrite digits2_iter_xO.
      apply andb_true_intro. split.
      - apply Z.eqb_eq. unfold fexp, SpecFloat.emin, prec, emax. lia.
      - apply Z.leb_le. unfold prec, emax. lia. }
    rewrite binary_round_aux_canonical by exact Hb.
    eexists. eexists. apply Prim2SF_SF2Prim. exact Hb.
Qed.

Lemma float_div_0_l (x : float) (m : positive) (e : Z) :
  Prim2SF x = S754_finite false m e -> (0 / x)%float = 0%float.
Proof.
  intros Hx. apply Prim2SF_inj. rewrite div_spec, Hx. reflexivity.
Qed.

Lemma float_div_diag (x : float) (s : bool) (m : positive) (e : Z) :
  Prim2SF x = S754_finite s m e -> (x / x)%float = 1%float.
Proof.
  intros Hx. apply Prim2SF_inj. rewrite div_spec, Hx.
  unfold SF64div, SFdiv, SFdiv_core_binary.
  cbn [Zdigits2]. rewrite !Z.sub_diag.
  change (Z.min (fexp prec emax 0) 0) with (-53).
  change (0 - -53) with 53.
  assert (Hdiv : Z.div_eucl (Z.shiftl (Zpos m) 53) (Zpos m) = (2 ^ 53, 0)).
  { rewrite Z.shiftl_mul_pow2 by lia.
    assert (Hq : Zpos m * 2 ^ 53 / Zpos m = 2 ^ 53)
      by (rewrite Z.mul_comm; apply Z.div_mul; lia).
    assert (Hr : (Zpos m * 2 ^ 53) mod Zpos m = 0)
      by (rewrite Z.mul_comm; apply Z.mod_mul; lia).
    unfold Z.div, Z.modulo in Hq, Hr.
    destruct (Z.div_eucl (Zpos m * 2 ^ 53) (Zpos m)) as [q r]. now subst. }
  cbv iota beta.
  change (IntDef.Z.div_eucl (IntDef.Z.shiftl (Zpos m) 53) (Zpos m))
    with (Z.div_eucl (Z.shiftl (Zpos m) 53) (Zpos m)).
  rewrite Hdiv.
  assert (Hloc : new_location (Zpos m) 0 = loc_Exact).
  { unfold new_location, new_location_even, new_location_odd.
    now destruct (Z.even (Zpos m)). }
  rewrite Hloc. now destruct s.
Qed.

Lemma int_div_binary64_0 (n : Z) :
  1 <= n < 2 ^ 53 -> int_div (F := float) 0 n = 0%float.
Proof.
  intros Hn. destruct (float_of_Z_finite n Hn) as [m [e Hx]].
  cbn [int_div binary64]. change (float_of_Z 0) with 0%float.
  exact (float_div_0_l _ m e Hx).
Qed.

Lemma int_div_binary64_diag (n : Z) :
  1 <= n < 2 ^ 53 -> int_div (F := float) n n = 1%float.
Proof.
  intros Hn. destruct (float_of_Z_finite n Hn) as [m [e Hx]].
  cbn [int_div binary64]. exact (float_div_diag _ false m e Hx).
Qed.

Lemma curve_point_0_binary64 (first_point : point float) (rest : list (point float)) :
  Forall finite_point (first_point :: rest) ->
  same_point (curve_point (first_point :: rest) 0%float) first_point.
Proof.
  intros Hf. destruct (levels_0_same first_point rest Hf) as [r0 [E0 S0]].
  unfold curve_point. now rewrite E0.
Qed.

Lemma curve_point_1_binary64 (points : list (point float)) (d : point float) :
  points <> [] -> Forall finite_point points ->
  same_point (curve_point points 1%float) (last points d).
Proof.
  intros Hne Hf. destruct (levels_1_same points d Hne Hf) as [r1 [E1 S1]].
  unfold curve_point. now rewrite E1.
Qed.

Lemma segment_curve_ends_binary64 (control_points : list (point float))
  (n : Z) (k : nat) (d : point float) :
  2 <= n <= 2 ^ 53 -> (3 * k + 3 < List.length control_points)%nat ->
  Forall finite_point control_points ->
  exists start_point end_point,
    getitem (segment_curve control_points n (Z.of_nat k)) 0 = Ok start_point
    /\ same_point start_point (nth (3 * k) control_points d)
    /\ getitem (segment_curve control_points n (Z.of_nat k)) (-1) = Ok end_point
    /\ same_point end_point (nth (3 * k + 3) control_points d).
Proof.
  intros Hn Hk Hf. unfold segment_curve. rewrite Nat2Z.id.
  rewrite sampled_getitem, sampled_last by lia.
  rewrite int_div_binary64_0, int_div_binary64_diag by lia.
  rewrite segment_four with (d := d) by exact Hk.
  assert (Hseg : Forall finite_point
                   [nth (3 * k) control_points d; nth (3 * k + 1) control_points d;
                    nth (3 * k + 2) control_points d; nth (3 * k + 3) control_points d]).
  { repeat constructor;
      apply (proj1 (Forall_forall finite_point control_points) Hf), nth_In; lia. }
  eexists. eexists. split; [reflexivity|]. split.
  - now apply curve_point_0_binary64.
  - split; [reflexivity|].
    exact (curve_point_1_binary64
             [nth (3 * k) control_points d; nth (3 * k + 1) control_points d;
              nth (3 * k + 2) control_points d; nth (3 * k + 3) control_points d]
             d ltac:(discriminate) Hseg).
Qed.

(** ** The samples of a chain, one by one *)

Lemma nth_concat_blocks {B : Type} (bs : list (list B)) (n k m : nat) (d : B) :
  (forall b, In b bs -> List.length b = n) ->
  (k < List.length bs)%nat -> (m < n)%nat ->
  nth (k * n + m) (concat bs) d = nth m (nth k bs []) d.
Proof.
  revert k. induction bs as [|b bs IH]; intros k Hall Hk Hm; [cbn in Hk; lia|].
  cbn [concat]. assert (Hb : List.length b = n) by (apply Hall; now left).
  destruct k as [|k].
  - cbn [nth Nat.mul Nat.add]. apply app_nth1. lia.
  - rewrite app_nth2 by (rewrite Hb; cbn [Nat.mul]; lia).
    rewrite Hb. replace (S k * n + m - n)%nat with (k * n + m)%nat by (cbn [Nat.mul]; lia).
    cbn [nth]. apply IH; [intros b' Hb'; apply Hall; now right | cbn in Hk; lia | exact Hm].
Qed.

Section Blocks.
Context {F : Type} {SF : Scalar F}.

Lemma piecewise_block (cps : list (point F)) (n k m : Z) (d : point F) :
  0 <= k < (len cps - 1) / 3 -> 0 <= m < n ->
  getitem (concat (map (segment_curve cps n) (range ((len cps - 1) / 3))))
    (k * n + m)
  = Ok (curve_point (segment cps (Z.to_nat k)) (int_div m (n - 1))).
Proof.
  intros Hk Hm.
  set (N := (len cps - 1) / 3) in *.
  set (bs := map (segment_curve cps n) (range N)).
  assert (Hbs : List.length bs = Z.to_nat N)
    by (unfold bs; now rewrite length_map, range_length).
  assert (Hall : forall b, In b bs -> List.length b = Z.to_nat n).
  { intros b Hb. unfold bs in Hb. apply in_map_iff in Hb. destruct Hb as [x [<- _]].
    pose proof (segment_curve_length cps n x) as Hl. unfold len in Hl. lia. }
  assert (Htot : len (concat bs) = N * n).
  { unfold bs. rewrite concat_blocks_length with (n := n).
    - unfold len. rewrite range_length. lia.
    - intros x. rewrite segment_curve_length. lia. }
  rewrite getitem_nth with (d := d) by (clearbody N bs; nia).
  replace (Z.to_nat (k * n + m)) with (Z.to_nat k * Z.to_nat n + Z.to_nat m)%nat
    by (clearbody N bs; nia).
  rewrite nth_concat_blocks with (n := Z.to_nat n) by (trivial; clearbody N bs; lia).
  unfold bs. replace N with (Z.of_nat (Z.to_nat N)) by (clearbody N; lia).
  rewrite nth_blocks by (clearbody N; lia).
  rewrite Z2Nat.id by lia.
  pose proof (sampled_getitem (curve_point (segment cps (Z.to_nat k))) n m Hm) as Hs.
  unfold segment_curve.
  rewrite getitem_nth with (d := d) in Hs
    by (unfold len, params; rewrite !length_map, range_length; lia).
  congruence.
Qed.

End Blocks.

(** ** The properties of the specification *)

(** *** C1: end points *)

(** X29.  In exact arithmetic, on at least two control points the
    evaluator returns the first control point at [t = 0] and the last one at
    [t = 1], on the nose and whatever the coordinates are. *)
Theorem evaluator_end_points_exact {F : Type} {SF : Scalar F} {EA : ExactArith F}
  (cps : list (point F)) :
  (2 <= List.length cps)%nat ->
  exists first_point last_point,
    getitem cps 0 = Ok first_point
    /\ getitem cps (-1) = Ok last_point
    /\ nb.de_casteljau_general cps (of_int 0) = Ok first_point
    /\ nb.de_casteljau_general cps (of_int 1) = Ok last_point
    /\ tc.de_casteljau_general cps (of_int 0) = Ok first_point
    /\ tc.de_casteljau_general cps (of_int 1) = Ok last_point.
Proof.
  intros Hlen. destruct cps as [|first_point rest]; [cbn in Hlen; lia|].
  exists first_point, (last (first_point :: rest) first_point).
  change (@tc.de_casteljau_general F SF) with (@nb.de_casteljau_general F SF).
  rewrite (getitem_last (first_point :: rest) first_point) by discriminate.
  rewrite (general_at_1 (first_point :: rest) first_point) by discriminate.
  rewrite general_at_0.
  rewrite getitem_nth with (d := first_point)
    by (rewrite len_cons; pose proof (len_nonneg rest); lia).
  repeat split.
Qed.

Lemma evaluator_end_points_exact_witness :
  let cps : list (point Qc) := nb.initial_control_points in
  let t0 : Qc := of_int 0 in
  let t1 : Qc := of_int 1 in
  (2 <= List.length cps)%nat
  /\ exists first_point last_point : point Qc,
       getitem cps 0 = Ok first_point
       /\ getitem cps (-1) = Ok last_point
       /\ nb.de_casteljau_general cps t0 = Ok first_point
       /\ nb.de_casteljau_general cps t1 = Ok last_point
       /\ tc.de_casteljau_general cps t0 = Ok first_point
       /\ tc.de_casteljau_general cps t1 = Ok last_point.
Proof.
  cbv zeta. split; [simpl; lia|].
  apply (@evaluator_end_points_exact Qc rationals rationals_exact
           nb.initial_control_points).
  simpl. lia.
Defined.




(** X1, the end points in double precision.  On at least two control points with finite
    coordinates, the evaluator at [t = 0.0] returns a point that is [==] to
    the first control point, and at [t = 1.0] one that is [==] to the last
    (the same doubles, but for the sign of a zero coordinate). *)
Theorem evaluator_end_points_binary64 (cps : list (point float)) :
  (2 <= List.length cps)%nat -> Forall finite_point cps ->
  exists first_point last_point r0 r1,
    getitem cps 0 = Ok first_point
    /\ getitem cps (-1) = Ok last_point
    /\ nb.de_casteljau_general cps 0%float = Ok r0
    /\ point_eqb r0 first_point = true
    /\ nb.de_casteljau_general cps 1%float = Ok r1
    /\ point_eqb r1 last_point = true.
Proof.
  intros Hlen Hf.
  destruct cps as [|first_point rest]; [cbn in Hlen; lia|].
  set (cps := first_point :: rest) in *.
  assert (Hne : cps <> []) by discriminate.
  assert (Ffirst : finite_point first_point) by now inversion Hf.
  assert (Flast : finite_point (last cps first_point)).
  { apply (proj1 (Forall_forall finite_point cps) Hf). now apply last_In. }
  destruct (levels_0_same first_point rest Hf) as [r0 [E0 S0]].
  destruct (levels_1_same cps first_point Hne Hf) as [r1 [E1 S1]].
  exists first_point, (last cps first_point), r0, r1.
  rewrite !nb_general_levels. fold cps in E0. rewrite E0, E1.
  rewrite (getitem_last cps first_point Hne).
  repeat split; try reflexivity.
  - now apply same_point_eqb.
  - now apply same_point_eqb.
Qed.

Lemma evaluator_end_points_binary64_witness :
  let cps : list (point float) := [Pt 1 1; Pt 2 3; Pt 4 3; Pt 5 1]%float in
  ((2 <= List.length cps)%nat /\ Forall finite_point cps)
  /\ exists first_point last_point r0 r1,
       getitem cps 0 = Ok first_point
       /\ getitem cps (-1) = Ok last_point
       /\ nb.de_casteljau_general cps 0%float = Ok r0
       /\ point_eqb r0 first_point = true
       /\ nb.de_casteljau_general cps 1%float = Ok r1
       /\ point_eqb r1 last_point = true.
Proof.
  cbv zeta.
  assert (Hfin : Forall finite_point [Pt 1 1; Pt 2 3; Pt 4 3; Pt 5 1]%float)
    by (repeat constructor; vm_compute; reflexivity).
  split; [split; [simpl; lia | exact Hfin]|].
  apply (evaluator_end_points_binary64 [Pt 1 1; Pt 2 3; Pt 4 3; Pt 5 1]%float).
  - simpl. lia.
  - exact Hfin.
Defined.

(** *** C2: the cubic evaluator against the general one *)

(** C2.  On four control points and for every parameter [t], inside [0, 1]
    or not, the three-level cubic evaluators ([tc.de_casteljau_cubic],
    [cb.de_casteljau], [pb.de_casteljau]) return the very point the
    general evaluator returns on the list of the same four points.  The two
    perform the same operations in the same order, so this holds in every
    arithmetic, [binary64] included. *)
Theorem cubic_agrees_with_general {F : Type} {SF : Scalar F}
  (p0 p1 p2 p3 : point F) (t : F) :
  tc.de_casteljau_general [p0; p1; p2; p3] t
  = Ok (tc.de_casteljau_cubic p0 p1 p2 p3 t)
  /\ nb.de_casteljau_general [p0; p1; p2; p3] t
     = Ok (cb.de_casteljau p0 p1 p2 p3 t)
  /\ nb.de_casteljau_general [p0; p1; p2; p3] t
     = Ok (pb.de_casteljau p0 p1 p2 p3 t).
Proof.
  destruct (cubic_copies_agree p0 p1 p2 p3 t) as [Hcb Hpb].
  rewrite Hcb, Hpb.
  change (tc.de_casteljau_general [p0; p1; p2; p3] t)
    with (nb.de_casteljau_general [p0; p1; p2; p3] t).
  rewrite nb_general_levels, levels_four.
  repeat split; reflexivity.
Qed.

(** *** C3: the worked example *)

(** C3.  On the control points [(1,1), (2,3), (4,3), (5,1)] the evaluators
    return exactly [(3.0, 2.5)] at [t = 0.5]: in double precision, where
    every intermediate value is representable, and in exact arithmetic
    ([nb.de_casteljau_general] and [cb.de_casteljau] alike). *)
Theorem evaluate_example :
  nb.de_casteljau_general (F := float)
    [Pt 1 1; Pt 2 3; Pt 4 3; Pt 5 1]%float 0.5%float
  = Ok (Pt 3 2.5)%float
  /\ cb.de_casteljau (F := float)
       (Pt 1 1)%float (Pt 2 3)%float (Pt 4 3)%float (Pt 5 1)%float 0.5%float
     = (Pt 3 2.5)%float
  /\ nb.de_casteljau_general (F := Qc)
       [Pt 1 1; Pt (Q2Qc 2) (Q2Qc 3); Pt (Q2Qc 4) (Q2Qc 3); Pt (Q2Qc 5) 1]%Qc
       (Q2Qc (1 # 2))
     = Ok (Pt (Q2Qc 3) (Q2Qc (5 # 2)))
  /\ cb.de_casteljau (F := Qc)
       (Pt 1 1)%Qc (Pt (Q2Qc 2) (Q2Qc 3)) (Pt (Q2Qc 4) (Q2Qc 3))
       (Pt (Q2Qc 5) 1)%Qc (Q2Qc (1 # 2))
     = Pt (Q2Qc 3) (Q2Qc (5 # 2)).
Proof.
  assert (Hexact :
    cb.de_casteljau (F := Qc)
      (Pt 1 1)%Qc (Pt (Q2Qc 2) (Q2Qc 3)) (Pt (Q2Qc 4) (Q2Qc 3))
      (Pt (Q2Qc 5) 1)%Qc (Q2Qc (1 # 2))
    = Pt (Q2Qc 3) (Q2Qc (5 # 2))).
  { unfold cb.de_casteljau, padd, scale. cbn [px py].
    f_equal; apply Qc_is_canon; vm_compute; reflexivity. }
  split; [vm_compute; reflexivity|].
  split; [vm_compute; reflexivity|].
  split; [|exact Hexact].
  rewrite nb_general_levels, levels_four. rewrite <- Hexact. reflexivity.
Qed.

(** The initial polygon of [nb.py] is the one of the example. *)
Lemma initial_control_points_binary64 :
  nb.initial_control_points (F := float)
  = [Pt 1 1; Pt 2 3; Pt 4 3; Pt 5 1]%float.
Proof. vm_compute. reflexivity. Qed.

(** *** C4: sampling one curve *)

(** C4.  On at least two control points and for [num_points >= 2], the
    sampler returns exactly [num_points] points, and the point at index [i]
    is the evaluator's at the parameter [i / (num_points - 1)], for
    [i = 0 .. num_points - 1] in this order. *)
Theorem sample_curve_points {F : Type} {SF : Scalar F}
  (cps : list (point F)) (n : Z) :
  (2 <= List.length cps)%nat -> 2 <= n ->
  exists curve,
    nb.generate_bezier_curve cps n = Ok curve
    /\ tc.generate_higher_order_bezier cps n = Ok curve
    /\ len curve = n
    /\ forall i, 0 <= i < n ->
         exists p, getitem curve i = Ok p
                   /\ nb.de_casteljau_general cps (int_div i (n - 1)) = Ok p.
Proof.
  intros Hlen Hn.
  assert (Hne : cps <> []) by (destruct cps; [cbn in Hlen; lia | congruence]).
  exists (map (curve_point cps) (params n)).
  change (tc.generate_higher_order_bezier cps n)
    with (nb.generate_bezier_curve cps n).
  rewrite sample_general by (trivial; lia).
  repeat split.
  - unfold len. rewrite length_map. fold (len (params (F := F) n)).
    rewrite params_length. lia.
  - intros i Hi. exists (curve_point cps (int_div i (n - 1))). split.
    + now apply sampled_getitem.
    + now apply general_curve_point.
Qed.

Lemma sample_curve_points_witness :
  ((2 <= List.length (nb.initial_control_points (F := float)))%nat /\ 2 <= 5)
  /\ exists curve,
       nb.generate_bezier_curve (F := float) nb.initial_control_points 5 = Ok curve
       /\ tc.generate_higher_order_bezier nb.initial_control_points 5 = Ok curve
       /\ len curve = 5
       /\ forall i, 0 <= i < 5 ->
            exists p, getitem curve i = Ok p
                      /\ nb.de_casteljau_general nb.initial_control_points
                           (int_div i (5 - 1)) = Ok p.
Proof.
  split; [split; [simpl; lia | lia]|].
  apply (@sample_curve_points float binary64 nb.initial_control_points 5).
  - simpl. lia.
  - lia.
Defined.

(** *** C5: sampling a chain *)

(** X30.  In exact arithmetic, on a chain of [3 m + 1] control points and
    for [num_points >= 2], the blocks of the piecewise sampler meet at the
    shared control points on the nose, whatever the coordinates are. *)
Theorem sample_piecewise_chain_exact {F : Type} {SF : Scalar F} {EA : ExactArith F}
  (cps : list (point F)) (m : nat) (n : Z) :
  (1 <= m)%nat -> List.length cps = (3 * m + 1)%nat -> 2 <= n ->
  exists blocks : list (list (point F)),
    List.length blocks = m
    /\ tc.generate_piecewise_bezier cps n = Ok (concat blocks)
    /\ len (concat blocks) = Z.of_nat m * n
    /\ (forall k, (k < m)%nat ->
          nb.generate_bezier_curve (segment cps k) n = Ok (nth k blocks [])
          /\ len (nth k blocks []) = n)
    /\ (forall k, (1 <= k < m)%nat ->
          exists shared,
            getitem cps (3 * Z.of_nat k) = Ok shared
            /\ getitem (nth (k - 1) blocks []) (-1) = Ok shared
            /\ getitem (nth k blocks []) 0 = Ok shared).
Proof.
  intros Hm Hlen Hn.
  assert (Hsegs : (len cps - 1) / 3 = Z.of_nat m).
  { unfold len. rewrite Hlen.
    replace (Z.of_nat (3 * m + 1) - 1) with (Z.of_nat m * 3) by lia.
    apply Z.div_mul. lia. }
  destruct cps as [|d rest] eqn:E; [cbn in Hlen; lia|]. rewrite <- E in *.
  exists (map (segment_curve cps n) (range (Z.of_nat m))).
  split; [rewrite length_map, range_length; lia|].
  split; [rewrite sample_piecewise, Hsegs by lia; reflexivity|].
  split.
  { rewrite concat_blocks_length with (n := n)
      by (intros k; rewrite segment_curve_length; lia).
    unfold len. rewrite range_length. lia. }
  split.
  - intros k Hk. rewrite nth_blocks by exact Hk. split.
    + unfold segment_curve. rewrite Nat2Z.id. apply sample_general; [|lia].
      rewrite segment_four with (d := d) by lia. discriminate.
    + rewrite segment_curve_length. lia.
  - intros k Hk. exists (nth (3 * k) cps d).
    rewrite !nth_blocks by lia.
    destruct (segment_curve_ends cps n (k - 1) d Hn ltac:(lia)) as [_ Hend].
    destruct (segment_curve_ends cps n k d Hn ltac:(lia)) as [Hstart _].
    rewrite Hend, Hstart.
    replace (3 * (k - 1) + 3)%nat with (3 * k)%nat by lia.
    rewrite getitem_nth with (d := d) by (unfold len; lia).
    replace (Z.to_nat (3 * Z.of_nat k)) with (3 * k)%nat by lia.
    repeat split.
Qed.

Lemma sample_piecewise_chain_exact_witness :
  let cps : list (point Qc) :=
    nb.initial_control_points
    ++ [Pt (Q2Qc 6) 0; Pt (Q2Qc 7) 0; Pt (Q2Qc 8) 1]%Qc in
  ((1 <= 2)%nat /\ List.length cps = (3 * 2 + 1)%nat /\ 2 <= 3)
  /\ exists blocks : list (list (point Qc)),
       List.length blocks = 2%nat
       /\ tc.generate_piecewise_bezier cps 3 = Ok (concat blocks)
       /\ len (concat blocks) = Z.of_nat 2 * 3
       /\ (forall k, (k < 2)%nat ->
             nb.generate_bezier_curve (segment cps k) 3 = Ok (nth k blocks [])
             /\ len (nth k blocks []) = 3)
       /\ (forall k, (1 <= k < 2)%nat ->
             exists shared,
               getitem cps (3 * Z.of_nat k) = Ok shared
               /\ getitem (nth (k - 1) blocks []) (-1) = Ok shared
               /\ getitem (nth k blocks []) 0 = Ok shared).
Proof.
  cbv zeta. split; [split; [lia | split; [reflexivity | lia]]|].
  apply (@sample_piecewise_chain_exact Qc rationals rationals_exact
           (nb.initial_control_points
            ++ [Pt (Q2Qc 6) 0; Pt (Q2Qc 7) 0; Pt (Q2Qc 8) 1]%Qc) 2 3).
  - lia.
  - reflexivity.
  - lia.
Defined.




(** X2, the shared points in double precision.  On a chain of [3 m + 1] control points with
    finite coordinates and for [2 <= num_points <= 2^53], at every inner
    shared index [3k] the last point of block [k - 1] and the first point of
    block [k] are both [==] to the control point at [3k]. *)
Theorem piecewise_shared_points_binary64 (cps : list (point float))
  (m : nat) (n : Z) :
  (1 <= m)%nat -> List.length cps = (3 * m + 1)%nat -> 2 <= n <= 2 ^ 53 ->
  Forall finite_point cps ->
  exists blocks : list (list (point float)),
    tc.generate_piecewise_bezier cps n = Ok (concat blocks)
    /\ List.length blocks = m
    /\ forall k, (1 <= k < m)%nat ->
         exists shared end_prev start_next,
           getitem cps (3 * Z.of_nat k) = Ok shared
           /\ getitem (nth (k - 1) blocks []) (-1) = Ok end_prev
           /\ point_eqb end_prev shared = true
           /\ getitem (nth k blocks []) 0 = Ok start_next
           /\ point_eqb start_next shared = true.
Proof.
  intros Hm Hlen Hn Hf.
  assert (Hsegs : (len cps - 1) / 3 = Z.of_nat m).
  { unfold len. rewrite Hlen.
    replace (Z.of_nat (3 * m + 1) - 1) with (Z.of_nat m * 3) by lia.
    apply Z.div_mul. lia. }
  destruct cps as [|d rest] eqn:E; [cbn in Hlen; lia|]. rewrite <- E in *.
  exists (map (segment_curve cps n) (range (Z.of_nat m))).
  split; [rewrite sample_piecewise, Hsegs by lia; reflexivity|].
  split; [rewrite length_map, range_length; lia|].
  intros k Hk. rewrite !nth_blocks by lia.
  destruct (segment_curve_ends_binary64 cps n (k - 1) d Hn ltac:(lia) Hf)
    as [_ [end_prev [_ [_ [Hend Send]]]]].
  destruct (segment_curve_ends_binary64 cps n k d Hn ltac:(lia) Hf)
    as [start_next [_ [Hstart [Sstart _]]]].
  replace (3 * (k - 1) + 3)%nat with (3 * k)%nat in Send by lia.
  assert (Fshared : finite_point (nth (3 * k) cps d))
    by (apply (proj1 (Forall_forall finite_point cps) Hf), nth_In; lia).
  exists (nth (3 * k) cps d), end_prev, start_next.
  rewrite getitem_nth with (d := d) by (unfold len; lia).
  replace (Z.to_nat (3 * Z.of_nat k)) with (3 * k)%nat by lia.
  repeat split; trivial; now apply same_point_eqb.
Qed.

Lemma piecewise_shared_points_binary64_witness :
  let cps : list (point float) :=
    [Pt 1 1; Pt 2 3; Pt 4 3; Pt 5 1; Pt 6 0; Pt 7 0; Pt 8 1]%float in
  ((1 <= 2)%nat /\ List.length cps = (3 * 2 + 1)%nat /\ 2 <= 3 <= 2 ^ 53
   /\ Forall finite_point cps)
  /\ exists blocks : list (list (point float)),
       tc.generate_piecewise_bezier cps 3 = Ok (concat blocks)
       /\ List.length blocks = 2%nat
       /\ forall k, (1 <= k < 2)%nat ->
            exists shared end_prev start_next,
              getitem cps (3 * Z.of_nat k) = Ok shared
              /\ getitem (nth (k - 1) blocks []) (-1) = Ok end_prev
              /\ point_eqb end_prev shared = true
              /\ getitem (nth k blocks []) 0 = Ok start_next
              /\ point_eqb start_next shared = true.
Proof.
  cbv zeta.
  assert (Hfin : Forall finite_point
                   [Pt 1 1; Pt 2 3; Pt 4 3; Pt 5 1; Pt 6 0; Pt 7 0; Pt 8 1]%float)
    by (repeat constructor; vm_compute; reflexivity).
  split; [split; [lia | split; [reflexivity | split; [lia | exact Hfin]]]|].
  apply (piecewise_shared_points_binary64
           [Pt 1 1; Pt 2 3; Pt 4 3; Pt 5 1; Pt 6 0; Pt 7 0; Pt 8 1]%float 2 3).
  - lia.
  - reflexivity.
  - lia.
  - exact Hfin.
Defined.

(** *** C6: raising then lowering the degree *)

(** C6.  On at least three control points, raising the degree and then
    lowering it gives back the first point, the last point and the number of
    points (in between the polygon has one point more). *)
Theorem increase_then_decrease {F : Type} {SF : Scalar F}
  (w : world F) :
  (3 <= List.length (control_points w))%nat ->
  exists w1 w2,
    nb.increase_degree tt w = (Ok tt, w1)
    /\ len (control_points w1) = len (control_points w) + 1
    /\ nb.decrease_degree tt w1 = (Ok tt, w2)
    /\ getitem (control_points w2) 0 = getitem (control_points w) 0
    /\ getitem (control_points w2) (-1) = getitem (control_points w) (-1)
    /\ len (control_points w2) = len (control_points w).
Proof.
  intros Hlen.
  destruct (control_points w) as [|d rest] eqn:E; [cbn in Hlen; lia|].
  rewrite <- E in *.
  pose proof (increase_degree_ok w d ltac:(lia)) as Hinc. cbv zeta in Hinc.
  set (new_point := add_y _ _) in Hinc.
  assert (Hne : control_points w <> []) by (rewrite E; congruence).
  assert (Hl1 : List.length (list_insert (control_points w) (-1) new_point)
                = S (List.length (control_points w))).
  { rewrite list_insert_before_last by exact Hne.
    rewrite length_app. cbn [List.length]. rewrite length_firstn, length_skipn. lia. }
  eexists. eexists. split; [exact Hinc|]. cbn [control_points].
  split; [unfold len; rewrite Hl1; lia|].
  split.
  - apply decrease_degree_ok; cbn [control_points].
    + lia.
    + apply pop_after_insert. lia.
    + exact Hne.
  - cbn [control_points]. repeat split.
Qed.

Lemma increase_then_decrease_witness :
  let w : world float := World nb.initial_control_points [] [] in
  (3 <= List.length (control_points w))%nat
  /\ exists w1 w2,
       nb.increase_degree tt w = (Ok tt, w1)
       /\ len (control_points w1) = len (control_points w) + 1
       /\ nb.decrease_degree tt w1 = (Ok tt, w2)
       /\ getitem (control_points w2) 0 = getitem (control_points w) 0
       /\ getitem (control_points w2) (-1) = getitem (control_points w) (-1)
       /\ len (control_points w2) = len (control_points w).
Proof.
  cbv zeta. split; [simpl; lia|].
  apply (@increase_then_decrease float binary64
           (World nb.initial_control_points [] [])).
  simpl. lia.
Defined.

(** *** C7: appending a segment *)

(** C7.  On a chain whose length satisfies [(len - 1) % 3 == 0] and whose
    last point is [L], [add_segment] appends [L + (1, 0.5)], [L + (2, 0.5)]
    and [L + (3, 0)] in this order: three points more, one segment more, the
    points that were there unchanged, the new segment starting at [L], and
    [(len - 1) % 3 == 0] again.  The points are appended whatever the call
    returns: it ends by drawing the scene, which returns unless the limit of
    the x axis that it fits to the new control points is not finite, and
    then raises [ValueError]. *)
Theorem add_segment_appends {F : Type} {SF : Scalar F} {LF : Limits F}
  (w : world F) (L : point F) :
  (len (control_points w) - 1) mod 3 = 0 ->
  getitem (control_points w) (-1) = Ok L ->
  let new_p1 := padd L (Pt (of_int 1) half) in
  let new_p2 := padd L (Pt (of_int 2) half) in
  let new_p3 := padd L (Pt (of_int 3) (of_int 0)) in
  exists w',
    pb.add_segment tt w = (pb.set_axis_properties (control_points w'), w')
    /\ (pb.set_axis_properties (control_points w') = Ok tt
        \/ pb.set_axis_properties (control_points w') = Raise ValueError)
    /\ control_points w' = control_points w ++ [new_p1; new_p2; new_p3]
    /\ len (control_points w') = len (control_points w) + 3
    /\ (forall i, 0 <= i < len (control_points w) ->
          getitem (control_points w') i = getitem (control_points w) i)
    /\ (exists m,
          fst (pb.get_num_segments w) = Ok m
          /\ fst (pb.get_num_segments w') = Ok (m + 1)
          /\ fst (pb.get_segment_control_points m w')
             = Ok (L, new_p1, new_p2, new_p3))
    /\ (len (control_points w') - 1) mod 3 = 0.
Proof.
  intros Hmod Hlast new_p1 new_p2 new_p3.
  pose proof (add_segment_ok w L Hlast) as Hadd. cbv zeta in Hadd.
  fold new_p1 new_p2 new_p3 in Hadd.
  match type of Hadd with _ = (_, ?w1) => exists w1 end.
  cbn [control_points].
  split; [exact Hadd|].
  split; [apply set_axis_properties_cases|].
  set (cps := control_points w) in *.
  assert (Hpos : 0 < len cps).
  { destruct cps; [rewrite getitem_nil in Hlast; discriminate|].
    rewrite len_cons. pose proof (len_nonneg cps). lia. }
  assert (Hlen' : len (cps ++ [new_p1; new_p2; new_p3]) = len cps + 3)
    by (rewrite len_app; reflexivity).
  assert (Hm : len cps - 1 = 3 * ((len cps - 1) / 3))
    by (apply Z.div_exact; lia).
  split; [reflexivity|]. split; [exact Hlen'|].
  split; [intros i Hi; now apply getitem_app_l|].
  split.
  - exists ((len cps - 1) / 3).
    unfold pb.get_num_segments, pb.get_segment_control_points, wbind,
      get_control_points, lift, ret.
    cbn [control_points fst]. fold cps.
    split; [reflexivity|]. split.
    + rewrite Hlen'.
      replace (len cps + 3 - 1) with (len cps - 1 + 1 * 3) by lia.
      now rewrite Z.div_add by lia.
    + set (m := (len cps - 1) / 3) in *.
      assert (Hi0 : m * 3 = -1 + len cps) by lia.
      rewrite getitem_app_l by lia.
      rewrite Hi0, <- getitem_neg by lia. rewrite Hlast.
      assert (Hn : forall j, 1 <= j <= 3 ->
                getitem (cps ++ [new_p1; new_p2; new_p3]) (-1 + len cps + j)
                = Ok (nth (Z.to_nat (j - 1)) [new_p1; new_p2; new_p3] new_p1)).
      { intros j Hj. rewrite getitem_nth with (d := new_p1) by lia.
        rewrite app_nth2 by (unfold len in *; lia).
        do 2 f_equal. unfold len in *. lia. }
      rewrite (Hn 1), (Hn 2), (Hn 3) by lia. reflexivity.
  - rewrite Hlen'. replace (len cps + 3 - 1) with (len cps - 1 + 1 * 3) by lia.
    now rewrite Z.mod_add by lia.
Qed.

Lemma add_segment_appends_witness :
  let w : world float := World [Pt 1 2; Pt 2 3.5; Pt 3 3.5; Pt 4 2]%float [] [] in
  let L : point float := (Pt 4 2)%float in
  ((len (control_points w) - 1) mod 3 = 0 /\ getitem (control_points w) (-1) = Ok L)
  /\ exists w',
       pb.add_segment tt w = (pb.set_axis_properties (control_points w'), w')
       /\ (pb.set_axis_properties (control_points w') = Ok tt
           \/ pb.set_axis_properties (control_points w') = Raise ValueError)
       /\ control_points w'
          = control_points w
            ++ [padd L (Pt (of_int 1) half); padd L (Pt (of_int 2) half);
                padd L (Pt (of_int 3) (of_int 0))]
       /\ len (control_points w') = len (control_points w) + 3
       /\ (forall i, 0 <= i < len (control_points w) ->
             getitem (control_points w') i = getitem (control_points w) i)
       /\ (exists m,
             fst (pb.get_num_segments w) = Ok m
             /\ fst (pb.get_num_segments w') = Ok (m + 1)
             /\ fst (pb.get_segment_control_points m w')
                = Ok (L, padd L (Pt (of_int 1) half), padd L (Pt (of_int 2) half),
                      padd L (Pt (of_int 3) (of_int 0))))
       /\ (len (control_points w') - 1) mod 3 = 0.
Proof.
  cbv zeta. split; [split; reflexivity|].
  apply (@add_segment_appends float binary64 binary64_limits
           (World [Pt 1 2; Pt 2 3.5; Pt 3 3.5; Pt 4 2]%float [] []) (Pt 4 2)%float).
  - reflexivity.
  - reflexivity.
Defined.

(** In double precision, on the chain [pb.py] starts with, the call returns
    normally; with an infinite [x] at the end of the chain the three points
    are appended and the call raises [ValueError]. *)
Lemma add_segment_returns_or_raises :
  fst (pb.add_segment (F := float) tt
         (World [Pt 1 2; Pt 2 3.5; Pt 3 3.5; Pt 4 2]%float [] [])) = Ok tt
  /\ fst (pb.add_segment (F := float) tt
            (World [Pt 1 2; Pt 2 3.5; Pt 3 3.5; Pt infinity 2]%float [] []))
     = Raise ValueError
  /\ len (control_points
            (snd (pb.add_segment (F := float) tt
                    (World [Pt 1 2; Pt 2 3.5; Pt 3 3.5; Pt infinity 2]%float [] []))))
     = 7.
Proof. repeat split; vm_compute; reflexivity. Qed.

(** *** C8: fewer than two control points *)

(** C8 fails on a single point: the evaluator returns it. *)
Lemma evaluator_one_point_returns :
  nb.de_casteljau_general (F := float) [Pt 1 1]%float 0.5%float
  = Ok (Pt 1 1)%float
  /\ ~ (forall (cps : list (point float)) (t : float),
          (List.length cps < 2)%nat ->
          exists e, nb.de_casteljau_general cps t = Raise e).
Proof.
  split; [reflexivity|].
  intros H. destruct (H [Pt 1 1]%float 0.5%float) as [e He].
  - simpl. lia.
  - discriminate He.
Qed.

(** C8, as the code has it.  On fewer than two control points the
    evaluator is [points[0]]: no point raises [IndexError], and a single
    point is returned as it is, for every parameter. *)
Theorem evaluator_below_two_points {F : Type} {SF : Scalar F}
  (cps : list (point F)) (t : F) :
  (List.length cps < 2)%nat ->
  nb.de_casteljau_general cps t
  = match cps with [] => Raise IndexError | p :: _ => Ok p end
  /\ tc.de_casteljau_general cps t
     = match cps with [] => Raise IndexError | p :: _ => Ok p end.
Proof.
  intros Hlen. destruct cps as [|p [|q rest]].
  - split; apply general_nil.
  - split; apply general_single.
  - cbn [List.length] in Hlen. lia.
Qed.

Lemma evaluator_below_two_points_witness :
  (List.length [(Pt 1 1)%float] < 2)%nat
  /\ nb.de_casteljau_general [Pt 1 1]%float 0.5%float = Ok (Pt 1 1)%float
  /\ tc.de_casteljau_general [Pt 1 1]%float 0.5%float = Ok (Pt 1 1)%float.
Proof.
  split; [simpl; lia|].
  apply (@evaluator_below_two_points float binary64 [Pt 1 1]%float 0.5%float).
  simpl. lia.
Defined.

(** *** C9: a chain of any length *)

(** C9 fails on five points: the first four are sampled as one segment and
    the fifth plays no part. *)
Lemma piecewise_five_points_returns :
  (len [Pt 1 1; Pt 2 3; Pt 4 3; Pt 5 1; Pt 6 6]%float - 1) mod 3 <> 0
  /\ tc.generate_piecewise_bezier (F := float)
       [Pt 1 1; Pt 2 3; Pt 4 3; Pt 5 1; Pt 6 6]%float 3
     = Ok [Pt 1 1; Pt 3 2.5; Pt 5 1]%float
  /\ ~ (forall (cps : list (point float)) (n : Z),
          (len cps - 1) mod 3 <> 0 ->
          exists e, tc.generate_piecewise_bezier cps n = Raise e).
Proof.
  assert (Hrun : tc.generate_piecewise_bezier (F := float)
                   [Pt 1 1; Pt 2 3; Pt 4 3; Pt 5 1; Pt 6 6]%float 3
                 = Ok [Pt 1 1; Pt 3 2.5; Pt 5 1]%float)
    by (vm_compute; reflexivity).
  split; [discriminate|]. split; [exact Hrun|].
  intros H.
  destruct (H [Pt 1 1; Pt 2 3; Pt 4 3; Pt 5 1; Pt 6 6]%float 3) as [e He].
  - discriminate.
  - rewrite Hrun in He. discriminate He.
Qed.

(** C9, as the code has it.  For every list of control points, whatever
    its length, and [num_points >= 2], the piecewise sampler returns: it
    samples the [(len - 1) // 3] complete leading segments, [num_points]
    points each, and the points after them play no part.  Sample [i] of
    segment [k] is the cubic evaluator's on the control points
    [3k .. 3k + 3] at the parameter [i / (num_points - 1)]. *)
Theorem piecewise_ignores_trailing_points {F : Type} {SF : Scalar F}
  (cps : list (point F)) (n : Z) :
  2 <= n ->
  let m := (len cps - 1) / 3 in
  exists pts,
    tc.generate_piecewise_bezier cps n = Ok pts
    /\ len pts = Z.max 0 m * n
    /\ (forall k i, 0 <= k < m -> 0 <= i < n ->
          exists p0 p1 p2 p3,
            getitem cps (3 * k) = Ok p0
            /\ getitem cps (3 * k + 1) = Ok p1
            /\ getitem cps (3 * k + 2) = Ok p2
            /\ getitem cps (3 * k + 3) = Ok p3
            /\ getitem pts (k * n + i)
               = Ok (tc.de_casteljau_cubic p0 p1 p2 p3 (int_div i (n - 1))))
    /\ tc.generate_piecewise_bezier (firstn (Z.to_nat (3 * m + 1)) cps) n
       = Ok pts.
Proof.
  intros Hn m.
  exists (concat (map (segment_curve cps n) (range m))).
  rewrite !sample_piecewise by lia. fold m.
  split; [reflexivity|]. split; [|split].
  - rewrite concat_blocks_length with (n := n)
      by (intros k; rewrite segment_curve_length; lia).
    unfold len. rewrite range_length. lia.
  - intros k i Hk Hi. unfold m in *. clear m.
    assert (Hne : cps <> []).
    { intros E. rewrite E in Hk. cbn in Hk. lia. }
    destruct (complete_segments_bound cps Hne) as [Hm0 Hm1].
    destruct cps as [|d rest] eqn:E; [congruence|]. rewrite <- E in *.
    clear E rest.
    assert (Hlen : 3 * k + 3 < len cps) by lia.
    exists (nth (Z.to_nat (3 * k)) cps d), (nth (Z.to_nat (3 * k + 1)) cps d),
           (nth (Z.to_nat (3 * k + 2)) cps d), (nth (Z.to_nat (3 * k + 3)) cps d).
    rewrite !getitem_nth with (d := d) by lia.
    rewrite (piecewise_block cps n k i d) by lia.
    rewrite (segment_four cps (Z.to_nat k) d) by (unfold len in Hlen; lia).
    rewrite cubic_curve_point.
    replace (Z.to_nat (3 * k)) with (3 * Z.to_nat k)%nat by lia.
    replace (Z.to_nat (3 * k + 1)) with (3 * Z.to_nat k + 1)%nat by lia.
    replace (Z.to_nat (3 * k + 2)) with (3 * Z.to_nat k + 2)%nat by lia.
    replace (Z.to_nat (3 * k + 3)) with (3 * Z.to_nat k + 3)%nat by lia.
    repeat split.
  - assert (Hcases : cps = [] \/ cps <> [])
      by (destruct cps; [left; reflexivity | right; congruence]).
    destruct Hcases as [Hnil | Hne]; [subst cps; reflexivity|].
    destruct (complete_segments_bound cps Hne) as [Hm0 Hm1]. fold m in Hm0, Hm1.
    assert (Hl : len (firstn (Z.to_nat (3 * m + 1)) cps) = 3 * m + 1)
      by (unfold len in *; rewrite length_firstn; lia).
    rewrite Hl. replace (3 * m + 1 - 1) with (m * 3) by lia.
    rewrite Z.div_mul by lia.
    do 2 f_equal. apply map_ext_in. intros k Hk. apply range_In in Hk.
    unfold segment_curve. rewrite segment_firstn by (unfold len in *; lia).
    reflexivity.
Qed.

Lemma piecewise_ignores_trailing_points_witness :
  2 <= 3
  /\ exists pts,
       tc.generate_piecewise_bezier (F := float)
         [Pt 1 1; Pt 2 3; Pt 4 3; Pt 5 1; Pt 6 6]%float 3 = Ok pts
       /\ len pts = 1 * 3
       /\ (forall k i, 0 <= k < 1 -> 0 <= i < 3 ->
             exists p0 p1 p2 p3,
               getitem [Pt 1 1; Pt 2 3; Pt 4 3; Pt 5 1; Pt 6 6]%float (3 * k) = Ok p0
               /\ getitem [Pt 1 1; Pt 2 3; Pt 4 3; Pt 5 1; Pt 6 6]%float (3 * k + 1)
                  = Ok p1
               /\ getitem [Pt 1 1; Pt 2 3; Pt 4 3; Pt 5 1; Pt 6 6]%float (3 * k + 2)
                  = Ok p2
               /\ getitem [Pt 1 1; Pt 2 3; Pt 4 3; Pt 5 1; Pt 6 6]%float (3 * k + 3)
                  = Ok p3
               /\ getitem pts (k * 3 + i)
                  = Ok (tc.de_casteljau_cubic p0 p1 p2 p3 (int_div i (3 - 1))))
       /\ tc.generate_piecewise_bezier
            [Pt 1 1; Pt 2 3; Pt 4 3; Pt 5 1]%float 3 = Ok pts.
Proof.
  split; [lia|].
  apply (@piecewise_ignores_trailing_points float binary64
           [Pt 1 1; Pt 2 3; Pt 4 3; Pt 5 1; Pt 6 6]%float 3).
  lia.
Defined.

(** *** C10: lowering the degree at the floor *)

(** C10 fails on two points: [decrease_degree] returns, and what tells the
    refusal is the printed message. *)
Lemma decrease_degree_two_points_returns :
  nb.decrease_degree (F := float) tt (World [Pt 1 1; Pt 5 1]%float [] [])
  = (Ok tt,
     World [Pt 1 1; Pt 5 1]%float []
       ["Cannot decrease degree below 1 (minimum 2 control points)"%string])
  /\ ~ (forall w : world float,
          (List.length (control_points w) <= 2)%nat ->
          exists e w', nb.decrease_degree tt w = (Raise e, w')).
Proof.
  split; [reflexivity|].
  intros H. destruct (H (World [Pt 1 1; Pt 5 1]%float [] [])) as [e [w' He]].
  - simpl. lia.
  - discriminate He.
Qed.

(** C10, as the code has it.  On at most two control points
    [decrease_degree] returns without an exception: it prints its message
    and leaves the control polygon, and what is plotted, exactly as they
    were. *)
Theorem decrease_degree_at_floor {F : Type} {SF : Scalar F}
  (w : world F) :
  (List.length (control_points w) <= 2)%nat ->
  nb.decrease_degree tt w
  = (Ok tt,
     World (control_points w) (plotted w)
       (stdout w
        ++ ["Cannot decrease degree below 1 (minimum 2 control points)"%string])).
Proof.
  intros Hlen. unfold nb.decrease_degree, wbind, get_control_points.
  replace (len (control_points w) <=? 2) with true
    by (symmetry; apply Z.leb_le; unfold len; lia).
  reflexivity.
Qed.

Lemma decrease_degree_at_floor_witness :
  let w : world float := World [Pt 1 1; Pt 5 1]%float [] [] in
  (List.length (control_points w) <= 2)%nat
  /\ nb.decrease_degree tt w
     = (Ok tt,
        World (control_points w) (plotted w)
          (stdout w
           ++ ["Cannot decrease degree below 1 (minimum 2 control points)"%string])).
Proof.
  cbv zeta. split; [simpl; lia|].
  apply (@decrease_degree_at_floor float binary64 (World [Pt 1 1; Pt 5 1]%float [] [])).
  simpl. lia.
Defined.

(** ** Further properties of the same functions *)

(** X3.  On two control points the evaluator is the linear interpolation
    [(1 - t) * P0 + t * P1], for every [t]. *)
Theorem linear_interpolation {F : Type} {SF : Scalar F}
  (p0 p1 : point F) (t : F) :
  nb.de_casteljau_general [p0; p1] t
  = Ok (padd (scale (fsub (of_int 1) t) p0) (scale t p1))
  /\ tc.de_casteljau_general [p0; p1] t
     = Ok (padd (scale (fsub (of_int 1) t) p0) (scale t p1)).
Proof.
  change (@tc.de_casteljau_general F SF) with (@nb.de_casteljau_general F SF).
  rewrite nb_general_levels. split; reflexivity.
Qed.

(** X4.  One sample point asked for raises [ZeroDivisionError] (the
    parameter is [0 / 0]), whatever the control points; none or fewer gives
    the empty curve. *)
Theorem sample_fewer_than_two {F : Type} {SF : Scalar F}
  (cps : list (point F)) (n : Z) :
  n <= 1 ->
  nb.generate_bezier_curve cps n
  = if n =? 1 then Raise ZeroDivisionError else Ok [].
Proof.
  intros Hn. destruct (Z.eqb_spec n 1) as [-> | Hne].
  - apply sample_one_point.
  - unfold nb.generate_bezier_curve. now rewrite range_nonpos by lia.
Qed.

Lemma sample_fewer_than_two_witness :
  1 <= 1
  /\ nb.generate_bezier_curve (F := float) [Pt 1 1; Pt 5 1]%float 1
     = Raise ZeroDivisionError.
Proof.
  split; [lia|].
  apply (@sample_fewer_than_two float binary64 [Pt 1 1; Pt 5 1]%float 1). lia.
Defined.

(** X5.  [increase_degree] puts one new point just before the last one: the
    midpoint of the last two points, moved up by [0.5]; the polygon has one
    point more and its first and last points are the old ones. *)
Theorem increase_degree_inserts {F : Type} {SF : Scalar F}
  (w : world F) (second_last last_point : point F) :
  getitem (control_points w) (-2) = Ok second_last ->
  getitem (control_points w) (-1) = Ok last_point ->
  let new_point := add_y (pdiv (padd second_last last_point) (of_int 2)) half in
  exists w',
    nb.increase_degree tt w = (Ok tt, w')
    /\ control_points w' = removelast (control_points w) ++ [new_point; last_point]
    /\ len (control_points w') = len (control_points w) + 1
    /\ getitem (control_points w') 0 = getitem (control_points w) 0.
Proof.
  intros H2 H1 new_point.
  destruct (getitem_neg2 _ _ last_point H2) as [Hlen E2].
  assert (Hne : control_points w <> [])
    by (intros E; rewrite E in Hlen; cbn in Hlen; lia).
  rewrite (getitem_last _ last_point Hne) in H1. injection H1 as E1.
  pose proof (increase_degree_ok w last_point Hlen) as Hinc. cbv zeta in Hinc.
  rewrite E1, <- E2 in Hinc. fold new_point in Hinc.
  eexists. split; [exact Hinc|]. cbn [control_points].
  rewrite list_insert_before_last by exact Hne.
  replace (List.length (control_points w) - 1)%nat
    with (Nat.pred (List.length (control_points w))) by lia.
  rewrite <- removelast_firstn_len.
  assert (Hskip : skipn (Nat.pred (List.length (control_points w))) (control_points w)
                  = [last_point]).
  { replace (Nat.pred (List.length (control_points w)))
      with (List.length (control_points w) - 1)%nat by lia.
    rewrite (skipn_pred_last _ last_point Hne). now rewrite E1. }
  rewrite Hskip.
  assert (Hl : List.length (removelast (control_points w))
               = (List.length (control_points w) - 1)%nat).
  { rewrite removelast_firstn_len, length_firstn. lia. }
  split; [reflexivity|]. split.
  - unfold len. rewrite length_app, Hl. cbn [List.length]. lia.
  - destruct (control_points w) as [|a [|b rest]]; cbn [List.length] in Hlen; try lia.
    reflexivity.
Qed.

Lemma increase_degree_inserts_witness :
  let w : world float := World [Pt 1 1; Pt 2 3; Pt 4 3; Pt 5 1]%float [] [] in
  (getitem (control_points w) (-2) = Ok (Pt 4 3)%float
   /\ getitem (control_points w) (-1) = Ok (Pt 5 1)%float)
  /\ exists w',
       nb.increase_degree tt w = (Ok tt, w')
       /\ control_points w'
          = removelast (control_points w)
            ++ [add_y (pdiv (padd (Pt 4 3) (Pt 5 1)) (of_int 2)) half; Pt 5 1]%float
       /\ len (control_points w') = len (control_points w) + 1
       /\ getitem (control_points w') 0 = getitem (control_points w) 0.
Proof.
  cbv zeta. split; [split; reflexivity|].
  apply (@increase_degree_inserts float binary64
           (World [Pt 1 1; Pt 2 3; Pt 4 3; Pt 5 1]%float [] [])
           (Pt 4 3)%float (Pt 5 1)%float).
  - reflexivity.
  - reflexivity.
Defined.

(** X6.  Above the floor [decrease_degree] removes the second-to-last point
    and nothing else: one point fewer, the same first and last points. *)
Theorem decrease_degree_removes {F : Type} {SF : Scalar F}
  (w : world F) :
  (3 <= List.length (control_points w))%nat ->
  exists w',
    nb.decrease_degree tt w = (Ok tt, w')
    /\ list_pop (control_points w) (-2) = Ok (control_points w')
    /\ len (control_points w') = len (control_points w) - 1
    /\ getitem (control_points w') 0 = getitem (control_points w) 0
    /\ getitem (control_points w') (-1) = getitem (control_points w) (-1).
Proof.
  intros Hlen.
  destruct (control_points w) as [|d rest] eqn:E; [cbn in Hlen; lia|].
  set (cps := d :: rest) in *.
  remember (List.length cps) as n eqn:En.
  remember (firstn (n - 2) cps ++ skipn (S (n - 2)) cps) as cps' eqn:Ecps'.
  assert (Hpop : list_pop cps (-2) = Ok cps').
  { unfold list_pop, len. rewrite <- En.
    replace (-2 <? 0) with true by reflexivity. cbv zeta iota.
    replace (-2 + Z.of_nat n <? 0) with false by (symmetry; apply Z.ltb_ge; lia).
    replace (Z.of_nat n <=? -2 + Z.of_nat n) with false by (symmetry; apply Z.leb_gt; lia).
    cbn [orb]. replace (Z.to_nat (-2 + Z.of_nat n)) with (n - 2)%nat by lia.
    now rewrite Ecps'. }
  assert (Hl' : List.length cps' = (n - 1)%nat).
  { rewrite Ecps', length_app, length_firstn, length_skipn, <- En. lia. }
  assert (Hne' : cps' <> []) by (intros E'; rewrite E' in Hl'; cbn in Hl'; lia).
  assert (Hne : cps <> []) by discriminate.
  exists (World cps' [map (curve_point cps') (params 100)] (stdout w)).
  split.
  { apply decrease_degree_ok; rewrite ?E; [lia | exact Hpop | exact Hne']. }
  cbn [control_points].
  split; [exact Hpop|]. split; [unfold len; rewrite Hl', <- En; lia|].
  split.
  - rewrite !getitem_nth with (d := d) by (unfold len; rewrite ?Hl', <- ?En; lia).
    f_equal. rewrite Ecps', app_nth1 by (rewrite length_firstn, <- En; lia).
    rewrite nth_firstn. now replace (Z.to_nat 0 <? n - 2)%nat with true
      by (symmetry; apply Nat.ltb_lt; lia).
  - rewrite (getitem_last cps' d Hne'), (getitem_last cps d Hne). f_equal.
    rewrite <- !nth_last, Hl', <- En, Ecps'.
    rewrite app_nth2 by (rewrite length_firstn, <- En; lia).
    rewrite length_firstn, nth_skipn, <- En. f_equal. lia.
Qed.

Lemma decrease_degree_removes_witness :
  let w : world float := World [Pt 1 1; Pt 2 3; Pt 4 3; Pt 5 1]%float [] [] in
  (3 <= List.length (control_points w))%nat
  /\ exists w',
       nb.decrease_degree tt w = (Ok tt, w')
       /\ list_pop (control_points w) (-2) = Ok (control_points w')
       /\ len (control_points w') = len (control_points w) - 1
       /\ getitem (control_points w') 0 = getitem (control_points w) 0
       /\ getitem (control_points w') (-1) = getitem (control_points w) (-1).
Proof.
  cbv zeta. split; [simpl; lia|].
  apply (@decrease_degree_removes float binary64
           (World [Pt 1 1; Pt 2 3; Pt 4 3; Pt 5 1]%float [] [])).
  simpl. lia.
Defined.

(** X7.  Raising and then lowering the degree gives back the whole
    polygon, inner points included, from two points on. *)
Theorem round_trip_whole_polygon {F : Type} {SF : Scalar F}
  (w : world F) :
  (2 <= List.length (control_points w))%nat ->
  exists w1 w2,
    nb.increase_degree tt w = (Ok tt, w1)
    /\ nb.decrease_degree tt w1 = (Ok tt, w2)
    /\ control_points w2 = control_points w.
Proof.
  intros Hlen.
  destruct (control_points w) as [|d rest] eqn:E; [cbn in Hlen; lia|].
  rewrite <- E in *.
  pose proof (increase_degree_ok w d Hlen) as Hinc. cbv zeta in Hinc.
  set (new_point := add_y _ _) in Hinc.
  assert (Hne : control_points w <> []) by (rewrite E; congruence).
  assert (Hl1 : List.length (list_insert (control_points w) (-1) new_point)
                = S (List.length (control_points w))).
  { rewrite list_insert_before_last by exact Hne.
    rewrite length_app. cbn [List.length]. rewrite length_firstn, length_skipn. lia. }
  eexists. eexists. split; [exact Hinc|]. split.
  - apply decrease_degree_ok; cbn [control_points].
    + lia.
    + now apply pop_after_insert.
    + exact Hne.
  - reflexivity.
Qed.

Lemma round_trip_whole_polygon_witness :
  let w : world float := World [Pt 1 1; Pt 5 1]%float [] [] in
  (2 <= List.length (control_points w))%nat
  /\ exists w1 w2,
       nb.increase_degree tt w = (Ok tt, w1)
       /\ nb.decrease_degree tt w1 = (Ok tt, w2)
       /\ control_points w2 = control_points w.
Proof.
  cbv zeta. split; [simpl; lia|].
  apply (@round_trip_whole_polygon float binary64 (World [Pt 1 1; Pt 5 1]%float [] [])).
  simpl. lia.
Defined.

(** ** When the samplers fail *)

(** X8.  The cubic samplers of [cb.py] and [pb.py] are the general sampler
    on the list of their four points, for every number of points: the same
    curve, and the same exception when there is one. *)
Theorem cubic_sampler_agrees {F : Type} {SF : Scalar F}
  (p0 p1 p2 p3 : point F) (n : Z) :
  cb.generate_bezier_curve p0 p1 p2 p3 n
  = nb.generate_bezier_curve [p0; p1; p2; p3] n
  /\ pb.generate_bezier_curve p0 p1 p2 p3 n
     = nb.generate_bezier_curve [p0; p1; p2; p3] n.
Proof.
  change (pb.generate_bezier_curve p0 p1 p2 p3 n)
    with (cb.generate_bezier_curve p0 p1 p2 p3 n).
  destruct (Z.eq_dec n 1) as [-> | Hn]; [split; reflexivity|].
  rewrite sample_cubic, sample_general by (trivial; discriminate).
  split; reflexivity.
Qed.

Lemma sample_general_empty {F : Type} {SF : Scalar F} (n : Z) :
  2 <= n -> nb.generate_bezier_curve (@nil (point F)) n = Raise IndexError.
Proof.
  intros Hn. unfold nb.generate_bezier_curve, range.
  destruct (Z.to_nat n) as [|k] eqn:E; [lia|].
  cbn [seq map for_]. rewrite true_div_ok by lia. reflexivity.
Qed.

Lemma sample_piecewise_one {F : Type} {SF : Scalar F} (cps : list (point F)) :
  4 <= len cps -> tc.generate_piecewise_bezier cps 1 = Raise ZeroDivisionError.
Proof.
  intros Hlen. unfold tc.generate_piecewise_bezier, range.
  assert (Hm : 1 <= (len cps - 1) / 3) by (apply Z.div_le_lower_bound; lia).
  destruct (Z.to_nat ((len cps - 1) / 3)) as [|k] eqn:E; [lia|].
  cbn [seq map for_].
  destruct cps as [|d rest]; [cbn in Hlen; lia|].
  rewrite !getitem_nth with (d := d) by lia. reflexivity.
Qed.

(** X9.  The general sampler raises exactly when one point is asked for
    (the parameter is [0 / 0]) or when two or more are asked for and there
    is no control point; the piecewise sampler raises exactly when one point
    per segment is asked for and there is a segment to sample. *)
Theorem sampler_failures {F : Type} {SF : Scalar F}
  (cps : list (point F)) (n : Z) :
  ((exists e, nb.generate_bezier_curve cps n = Raise e)
   <-> n = 1 \/ (2 <= n /\ cps = []))
  /\ ((exists e, tc.generate_piecewise_bezier cps n = Raise e)
      <-> n = 1 /\ 4 <= len cps).
Proof.
  split; split.
  - intros [e He]. destruct (Z.eq_dec n 1) as [Hn | Hn]; [now left|].
    right. destruct cps as [|p rest].
    + split; [|reflexivity]. apply Z.nlt_ge. intros Hlt.
      unfold nb.generate_bezier_curve in He.
      rewrite range_nonpos in He by lia. discriminate He.
    + rewrite sample_general in He by (trivial; discriminate). discriminate He.
  - intros [-> | [Hn ->]].
    + exists ZeroDivisionError. apply sample_one_point.
    + exists IndexError. now apply sample_general_empty.
  - intros [e He]. destruct (Z.eq_dec n 1) as [Hn | Hn].
    + split; [exact Hn|]. subst n. apply Z.nlt_ge. intros Hlt.
      unfold tc.generate_piecewise_bezier in He.
      rewrite range_nonpos in He; [discriminate He|].
      pose proof (len_nonneg cps).
      assert ((len cps - 1) / 3 < 1) by (apply Z.div_lt_upper_bound; lia). lia.
    + rewrite sample_piecewise in He by exact Hn. discriminate He.
  - intros [-> Hlen]. exists ZeroDivisionError. now apply sample_piecewise_one.
Qed.

(** ** The ends of a sampled curve *)

(** X10.  With at least one control point and two or more samples, the
    sampled curve starts at the first control point and ends at the last one
    (in exact arithmetic). *)
Theorem sampled_curve_end_points {F : Type} {SF : Scalar F} {EA : ExactArith F}
  (cps : list (point F)) (n : Z) :
  cps <> [] -> 2 <= n ->
  exists curve,
    nb.generate_bezier_curve cps n = Ok curve
    /\ getitem curve 0 = getitem cps 0
    /\ getitem curve (-1) = getitem cps (-1).
Proof.
  intros Hne Hn. exists (map (curve_point cps) (params n)).
  rewrite sample_general by (trivial; lia).
  rewrite sampled_getitem, sampled_last by lia.
  rewrite int_div_0_l, int_div_diag by lia.
  destruct cps as [|first_point rest]; [congruence|].
  rewrite curve_point_0, (curve_point_1 _ first_point) by discriminate.
  rewrite (getitem_last _ first_point) by discriminate.
  repeat split.
Qed.

Lemma sampled_curve_end_points_witness :
  let cps : list (point Qc) := nb.initial_control_points in
  (cps <> [] /\ 2 <= 100)
  /\ exists curve,
       nb.generate_bezier_curve cps 100 = Ok curve
       /\ getitem curve 0 = getitem cps 0
       /\ getitem curve (-1) = getitem cps (-1).
Proof.
  cbv zeta. split; [split; [discriminate | lia]|].
  apply (@sampled_curve_end_points Qc rationals rationals_exact
           nb.initial_control_points 100).
  - discriminate.
  - lia.
Defined.

(** X11.  In double precision, with finite coordinates and between 2 and
    [2^53] samples, the first sample is [==] to the first control point and
    the last sample to the last one. *)
Theorem sampled_curve_end_points_binary64 (cps : list (point float)) (n : Z) :
  cps <> [] -> Forall finite_point cps -> 2 <= n <= 2 ^ 53 ->
  exists curve first_point last_point c0 c1,
    nb.generate_bezier_curve cps n = Ok curve
    /\ getitem cps 0 = Ok first_point
    /\ getitem cps (-1) = Ok last_point
    /\ getitem curve 0 = Ok c0 /\ point_eqb c0 first_point = true
    /\ getitem curve (-1) = Ok c1 /\ point_eqb c1 last_point = true.
Proof.
  intros Hne Hf Hn.
  destruct cps as [|first_point rest]; [congruence|].
  set (cps := first_point :: rest) in *.
  exists (map (curve_point cps) (params n)), first_point, (last cps first_point),
    (curve_point cps 0%float), (curve_point cps 1%float).
  rewrite sample_general by (trivial; lia).
  rewrite sampled_getitem, sampled_last by lia.
  rewrite int_div_binary64_0, int_div_binary64_diag by lia.
  rewrite (getitem_last cps first_point Hne).
  assert (Ffirst : finite_point first_point) by now inversion Hf.
  assert (Flast : finite_point (last cps first_point)).
  { apply (proj1 (Forall_forall finite_point cps) Hf). now apply last_In. }
  repeat split.
  - apply same_point_eqb; [exact Ffirst|]. now apply curve_point_0_binary64.
  - apply same_point_eqb; [exact Flast|]. now apply curve_point_1_binary64.
Qed.

Lemma sampled_curve_end_points_binary64_witness :
  let cps : list (point float) := [Pt 1 1; Pt 2 3; Pt 4 3; Pt 5 1]%float in
  (cps <> [] /\ Forall finite_point cps /\ 2 <= 100 <= 2 ^ 53)
  /\ exists curve first_point last_point c0 c1,
       nb.generate_bezier_curve cps 100 = Ok curve
       /\ getitem cps 0 = Ok first_point
       /\ getitem cps (-1) = Ok last_point
       /\ getitem curve 0 = Ok c0 /\ point_eqb c0 first_point = true
       /\ getitem curve (-1) = Ok c1 /\ point_eqb c1 last_point = true.
Proof.
  cbv zeta.
  assert (Hfin : Forall finite_point [Pt 1 1; Pt 2 3; Pt 4 3; Pt 5 1]%float)
    by (repeat constructor; vm_compute; reflexivity).
  split; [split; [discriminate | split; [exact Hfin | lia]]|].
  apply (sampled_curve_end_points_binary64
           [Pt 1 1; Pt 2 3; Pt 4 3; Pt 5 1]%float 100).
  - discriminate.
  - exact Hfin.
  - lia.
Defined.

(** ** What [pb.draw_scene] plots *)


(** ** When the button handlers fail, and what sequences of clicks keep *)


Lemma increase_degree_keeps_ends {F : Type} {SF : Scalar F} (w : world F) :
  (2 <= List.length (control_points w))%nat ->
  exists w',
    nb.increase_degree tt w = (Ok tt, w')
    /\ List.length (control_points w') = S (List.length (control_points w))
    /\ getitem (control_points w') 0 = getitem (control_points w) 0
    /\ getitem (control_points w') (-1) = getitem (control_points w) (-1).
Proof.
  intros Hlen.
  destruct (control_points w) as [|d rest] eqn:E; [cbn in Hlen; lia|].
  pose proof (increase_degree_ok w d) as Hinc. rewrite E in Hinc.
  specialize (Hinc Hlen). cbv zeta in Hinc.
  set (cps := d :: rest) in *. set (new_point := add_y _ _) in Hinc.
  assert (Hne : cps <> []) by discriminate.
  eexists. split; [exact Hinc|]. cbn [control_points].
  rewrite list_insert_before_last by exact Hne.
  remember (List.length cps) as n eqn:En.
  assert (Hl : List.length (firstn (n - 1) cps ++ new_point :: skipn (n - 1) cps) = S n).
  { rewrite length_app. cbn [List.length]. rewrite length_firstn, length_skipn, <- En. lia. }
  split; [exact Hl|]. split.
  - rewrite !getitem_nth with (d := d) by (unfold len; rewrite ?Hl, <- ?En; lia).
    f_equal. rewrite app_nth1 by (rewrite length_firstn, <- En; lia).
    rewrite nth_firstn.
    now replace (Z.to_nat 0 <? n - 1)%nat with true by (symmetry; apply Nat.ltb_lt; lia).
  - rewrite (getitem_last cps d Hne).
    rewrite (getitem_last _ d) by (intros E'; rewrite E' in Hl; discriminate Hl).
    f_equal. rewrite <- !nth_last, Hl, <- En.
    rewrite app_nth2 by (rewrite length_firstn, <- En; lia).
    rewrite length_firstn, <- En.
    replace (S n - 1 - Nat.min (n - 1) n)%nat with 1%nat by lia.
    cbn [nth]. rewrite nth_skipn. f_equal. lia.
Qed.

Lemma decrease_degree_keeps_ends {F : Type} {SF : Scalar F} (w : world F) :
  (2 <= List.length (control_points w))%nat ->
  exists w',
    nb.decrease_degree tt w = (Ok tt, w')
    /\ (2 <= List.length (control_points w') <= List.length (control_points w))%nat
    /\ getitem (control_points w') 0 = getitem (control_points w) 0
    /\ getitem (control_points w') (-1) = getitem (control_points w) (-1).
Proof.
  intros Hlen.
  destruct (Nat.eq_dec (List.length (control_points w)) 2) as [H2 | H2].
  - eexists. split.
    + unfold nb.decrease_degree, wbind, get_control_points.
      replace (len (control_points w) <=? 2) with true
        by (symmetry; apply Z.leb_le; unfold len; lia).
      reflexivity.
    + cbn [control_points]. repeat split; lia.
  - destruct (control_points w) as [|d rest] eqn:E; [cbn in Hlen; lia|].
    set (cps := d :: rest) in *.
    remember (List.length cps) as n eqn:En.
    remember (firstn (n - 2) cps ++ skipn (S (n - 2)) cps) as cps' eqn:Ecps'.
    assert (Hpop : list_pop cps (-2) = Ok cps').
    { unfold list_pop, len. rewrite <- En.
      replace (-2 <? 0) with true by reflexivity. cbv zeta iota.
      replace (-2 + Z.of_nat n <? 0) with false by (symmetry; apply Z.ltb_ge; lia).
      replace (Z.of_nat n <=? -2 + Z.of_nat n) with false by (symmetry; apply Z.leb_gt; lia).
      cbn [orb]. replace (Z.to_nat (-2 + Z.of_nat n)) with (n - 2)%nat by lia.
      now rewrite Ecps'. }
    assert (Hl' : List.length cps' = (n - 1)%nat).
    { rewrite Ecps', length_app, length_firstn, length_skipn, <- En. lia. }
    assert (Hne' : cps' <> []) by (intros E'; rewrite E' in Hl'; cbn in Hl'; lia).
    assert (Hne : cps <> []) by discriminate.
    exists (World cps' [map (curve_point cps') (params 100)] (stdout w)).
    split.
    { apply decrease_degree_ok; rewrite ?E; [fold cps; lia | exact Hpop | exact Hne']. }
    cbn [control_points]. split; [lia|]. split.
    + rewrite !getitem_nth with (d := d) by (unfold len; rewrite ?Hl', <- ?En; lia).
      f_equal. rewrite Ecps', app_nth1 by (rewrite length_firstn, <- En; lia).
      rewrite nth_firstn. now replace (Z.to_nat 0 <? n - 2)%nat with true
        by (symmetry; apply Nat.ltb_lt; lia).
    + rewrite (getitem_last cps' d Hne'), (getitem_last cps d Hne). f_equal.
      rewrite <- !nth_last, Hl', <- En, Ecps'.
      rewrite app_nth2 by (rewrite length_firstn, <- En; lia).
      rewrite length_firstn, nth_skipn, <- En. f_equal. lia.
Qed.


(** X16.  From a polygon of at least two points, any sequence of clicks on
    the two degree buttons runs without an exception, leaves at least two
    points, and never moves the first or the last point. *)
Theorem clicks_keep_end_points {F : Type} {SF : Scalar F}
  (cs : list click) (w : world F) :
  (2 <= List.length (control_points w))%nat ->
  exists w',
    clicks cs w = (Ok tt, w')
    /\ (2 <= List.length (control_points w'))%nat
    /\ getitem (control_points w') 0 = getitem (control_points w) 0
    /\ getitem (control_points w') (-1) = getitem (control_points w) (-1).
Proof.
  revert w. induction cs as [|c cs IH]; intros w Hlen.
  - exists w. repeat split; exact Hlen.
  - assert (Hstep : exists w1,
              (match c with
               | IncreaseDegree => nb.increase_degree tt
               | DecreaseDegree => nb.decrease_degree tt
               end) w = (Ok tt, w1)
              /\ (2 <= List.length (control_points w1))%nat
              /\ getitem (control_points w1) 0 = getitem (control_points w) 0
              /\ getitem (control_points w1) (-1) = getitem (control_points w) (-1)).
    { destruct c.
      - destruct (increase_degree_keeps_ends w Hlen) as [w1 [H1 [H2 [H3 H4]]]].
        exists w1. repeat split; trivial. lia.
      - destruct (decrease_degree_keeps_ends w Hlen) as [w1 [H1 [H2 [H3 H4]]]].
        exists w1. repeat split; trivial. lia. }
    destruct Hstep as [w1 [H1 [H2 [H3 H4]]]].
    destruct (IH w1 H2) as [w' [G1 [G2 [G3 G4]]]].
    exists w'. split.
    + unfold clicks in *. cbn [wfor]. unfold wbind at 1. rewrite H1. exact G1.
    + split; [exact G2|]. split; congruence.
Qed.

Lemma clicks_keep_end_points_witness :
  let w : world float := World nb.initial_control_points [] [] in
  let cs := [DecreaseDegree; DecreaseDegree; DecreaseDegree; IncreaseDegree] in
  (2 <= List.length (control_points w))%nat
  /\ exists w',
       clicks cs w = (Ok tt, w')
       /\ (2 <= List.length (control_points w'))%nat
       /\ getitem (control_points w') 0 = getitem (control_points w) 0
       /\ getitem (control_points w') (-1) = getitem (control_points w) (-1).
Proof.
  cbv zeta. split; [simpl; lia|].
  apply (@clicks_keep_end_points float binary64
           [DecreaseDegree; DecreaseDegree; DecreaseDegree; IncreaseDegree]
           (World nb.initial_control_points [] [])).
  simpl. lia.
Defined.

Lemma add_segments_succ {F : Type} {SF : Scalar F} {LF : Limits F}
  (k : nat) (w : world F) :
  add_segments (S k) w = snd (pb.add_segment tt (add_segments k w)).
Proof. reflexivity. Qed.

(** X17.  From a chain whose length satisfies [(len - 1) % 3 == 0], [k]
    calls of [add_segment], each on the world the call before left, append
    [3 k] points after the ones that were there: [k] segments more, and
    [(len - 1) % 3 == 0] again.  Each of the calls returns or raises
    [ValueError] after it has appended its points; none raises
    [IndexError]. *)
Theorem add_segments_extend_chain {F : Type} {SF : Scalar F} {LF : Limits F}
  (k : nat) (w : world F) :
  (len (control_points w) - 1) mod 3 = 0 ->
  exists added,
    control_points (add_segments k w) = control_points w ++ added
    /\ len added = 3 * Z.of_nat k
    /\ (len (control_points (add_segments k w)) - 1) mod 3 = 0
    /\ fst (pb.get_num_segments (add_segments k w))
       = Ok ((len (control_points w) - 1) / 3 + Z.of_nat k)
    /\ stdout (add_segments k w) = stdout w
    /\ forall j, (j < k)%nat ->
         fst (pb.add_segment tt (add_segments j w)) = Ok tt
         \/ fst (pb.add_segment tt (add_segments j w)) = Raise ValueError.
Proof.
  intros Hmod. induction k as [|k IH].
  - exists []. cbn [add_segments Nat.iter nat_rect]. rewrite app_nil_r.
    repeat split; trivial.
    + unfold pb.get_num_segments, wbind, get_control_points, ret. cbn [fst].
      now rewrite Z.add_0_r.
    + intros j Hj. lia.
  - destruct IH as [added [G1 [G2 [G3 [G4 [G5 G6]]]]]].
    set (wk := add_segments k w) in *.
    assert (Hpos : 0 < len (control_points wk)).
    { pose proof (len_nonneg (control_points wk)).
      destruct (Z.eq_dec (len (control_points wk)) 0) as [E0 | E0]; [|lia].
      rewrite E0 in G3. discriminate G3. }
    destruct (control_points wk) as [|d rest] eqn:E;
      [change (len (@nil (point F))) with 0 in Hpos; lia|].
    pose proof (add_segment_ok wk (last (d :: rest) d)) as Hadd.
    rewrite E in Hadd. specialize (Hadd (getitem_last (d :: rest) d ltac:(discriminate))).
    cbv zeta in Hadd.
    set (new := [padd _ _; padd _ _; padd _ _]) in Hadd.
    assert (Hnew : len new = 3) by reflexivity.
    rewrite add_segments_succ. fold wk. rewrite Hadd. cbn [snd control_points stdout].
    exists (added ++ new).
    assert (Hlen : len (d :: rest) = len (control_points w) + 3 * Z.of_nat k)
      by (rewrite G1, len_app; lia).
    split; [now rewrite G1, app_assoc|].
    split; [rewrite len_app; lia|].
    split.
    { rewrite len_app, Hnew.
      replace (len (d :: rest) + 3 - 1) with (len (d :: rest) - 1 + 1 * 3) by lia.
      now rewrite Z.mod_add by lia. }
    split.
    { unfold pb.get_num_segments, wbind, get_control_points, ret.
      cbn [fst control_points]. f_equal.
      rewrite len_app, Hnew, Hlen.
      replace (len (control_points w) + 3 * Z.of_nat k + 3 - 1)
        with (len (control_points w) - 1 + (Z.of_nat k + 1) * 3) by lia.
      rewrite Z.div_add by lia. lia. }
    split; [exact G5|].
    intros j Hj. destruct (Nat.eq_dec j k) as [-> | Hne].
    + fold wk. rewrite Hadd. cbn [fst]. apply set_axis_properties_cases.
    + apply G6. lia.
Qed.

Lemma add_segments_extend_chain_witness :
  let w : world float := World [Pt 1 2; Pt 2 3.5; Pt 3 3.5; Pt 4 2]%float [] [] in
  (len (control_points w) - 1) mod 3 = 0
  /\ exists added,
       control_points (add_segments 5 w) = control_points w ++ added
       /\ len added = 3 * Z.of_nat 5
       /\ (len (control_points (add_segments 5 w)) - 1) mod 3 = 0
       /\ fst (pb.get_num_segments (add_segments 5 w))
          = Ok ((len (control_points w) - 1) / 3 + Z.of_nat 5)
       /\ stdout (add_segments 5 w) = stdout w
       /\ forall j, (j < 5)%nat ->
            fst (pb.add_segment tt (add_segments j w)) = Ok tt
            \/ fst (pb.add_segment tt (add_segments j w)) = Raise ValueError.
Proof.
  cbv zeta. split; [reflexivity|].
  apply (@add_segments_extend_chain float binary64 binary64_limits 5
           (World [Pt 1 2; Pt 2 3.5; Pt 3 3.5; Pt 4 2]%float [] [])).
  reflexivity.
Defined.

(** ** Dragging a control point *)

Lemma for_first_from {A : Type} (xs : list A) (a : nat) (s : option Z)
  (h : A -> bool) (d : A) :
  let picked :=
    for_first (combine (map Z.of_nat (seq a (List.length xs))) xs) s
      (fun '(i, x) => h x) (fun '(i, x) => Some i) in
  (picked = s /\ forall x, In x xs -> h x = false)
  \/ exists k,
       (k < List.length xs)%nat
       /\ h (nth k xs d) = true
       /\ (forall j, (j < k)%nat -> h (nth j xs d) = false)
       /\ picked = Some (Z.of_nat (a + k)).
Proof.
  revert a. induction xs as [|x xs IH]; intros a; cbv zeta.
  - left. split; [reflexivity | intros x []].
  - cbn [List.length seq map combine for_first].
    destruct (h x) eqn:Ex.
    + right. exists 0%nat. cbn [List.length nth]. repeat split; [lia | exact Ex | lia |].
      now rewrite Nat.add_0_r.
    + destruct (IH (S a)) as [[Hs Hall] | [k [Hk [Hhit [Hbefore Hpick]]]]].
      * left. split; [exact Hs|]. intros y [<- | Hy]; [exact Ex | now apply Hall].
      * right. exists (S k). cbn [List.length nth]. repeat split; [lia | exact Hhit | |].
        -- intros [|j] Hj; [exact Ex | apply Hbefore; lia].
        -- rewrite Hpick. do 2 f_equal. lia.
Qed.

Lemma pick_first {A : Type} (xs : list A) (s : option Z) (h : A -> bool) (d : A) :
  let picked :=
    for_first (enumerate xs) s (fun '(i, x) => h x) (fun '(i, x) => Some i) in
  (picked = s /\ forall x, In x xs -> h x = false)
  \/ exists k,
       (k < List.length xs)%nat
       /\ h (nth k xs d) = true
       /\ (forall j, (j < k)%nat -> h (nth j xs d) = false)
       /\ picked = Some (Z.of_nat k).
Proof.
  unfold enumerate, range, len. rewrite Nat2Z.id. apply (for_first_from xs 0).
Qed.

Lemma replace_at_nonneg {A : Type} (xs : list A) (i : Z) (x : A) :
  0 <= i < len xs ->
  replace_at xs i x = firstn (Z.to_nat i) xs ++ x :: skipn (S (Z.to_nat i)) xs.
Proof.
  intros Hi. unfold replace_at.
  replace (i <? 0) with false by (symmetry; apply Z.ltb_ge; lia). cbv zeta iota.
  replace (i <? 0) with false by (symmetry; apply Z.ltb_ge; lia).
  replace (len xs <=? i) with false by (symmetry; apply Z.leb_gt; lia).
  reflexivity.
Qed.

Lemma replace_at_neg {A : Type} (xs : list A) (i : Z) (x : A) :
  - len xs <= i < 0 -> replace_at xs i x = replace_at xs (i + len xs) x.
Proof.
  intros Hi. rewrite (replace_at_nonneg xs (i + len xs)) by lia.
  unfold replace_at.
  replace (i <? 0) with true by (symmetry; apply Z.ltb_lt; lia). cbv zeta iota.
  replace (i + len xs <? 0) with false by (symmetry; apply Z.ltb_ge; lia).
  replace (len xs <=? i + len xs) with false by (symmetry; apply Z.leb_gt; lia).
  reflexivity.
Qed.

Lemma replace_at_len {A : Type} (xs : list A) (i : Z) (x : A) :
  len (replace_at xs i x) = len xs.
Proof.
  assert (Hpos : forall j, 0 <= j < len xs -> len (replace_at xs j x) = len xs).
  { intros j Hj. rewrite replace_at_nonneg by exact Hj. unfold len in *.
    rewrite length_app. cbn [List.length]. rewrite length_firstn, length_skipn. lia. }
  destruct (Z_lt_le_dec i 0) as [Hneg | Hnn].
  - destruct (Z_le_gt_dec (- len xs) i) as [Hin | Hout].
    + rewrite replace_at_neg by lia. apply Hpos. lia.
    + unfold replace_at.
      replace (i <? 0) with true by (symmetry; apply Z.ltb_lt; lia). cbv zeta iota.
      now replace (i + len xs <? 0) with true by (symmetry; apply Z.ltb_lt; lia).
  - destruct (Z_lt_le_dec i (len xs)) as [Hin | Hout].
    + apply Hpos. lia.
    + unfold replace_at.
      replace (i <? 0) with false by (symmetry; apply Z.ltb_ge; lia). cbv zeta iota.
      replace (len xs <=? i) with true by (symmetry; apply Z.leb_le; lia).
      now rewrite orb_true_r.
Qed.

Lemma replace_at_nth {A : Type} (xs : list A) (i : Z) (x d : A) (k : nat) :
  0 <= i < len xs -> (k < List.length xs)%nat ->
  nth k (replace_at xs i x) d = if (k =? Z.to_nat i)%nat then x else nth k xs d.
Proof.
  intros Hi Hk. rewrite replace_at_nonneg by exact Hi. unfold len in Hi.
  set (n := Z.to_nat i). assert (Hn : (n < List.length xs)%nat) by lia.
  assert (Hf : List.length (firstn n xs) = n) by (rewrite length_firstn; lia).
  destruct (Nat.eqb_spec k n) as [-> | Hne].
  - rewrite app_nth2 by lia. rewrite Hf, Nat.sub_diag. reflexivity.
  - destruct (Nat.lt_ge_cases k n) as [Hlt | Hge].
    + rewrite app_nth1 by lia. rewrite nth_firstn.
      now replace (k <? n)%nat with true by (symmetry; apply Nat.ltb_lt; lia).
    + rewrite app_nth2 by lia. rewrite Hf.
      destruct (k - n)%nat as [|m] eqn:Em; [lia|]. cbn [nth].
      rewrite nth_skipn. f_equal. lia.
Qed.

Lemma replace_at_twice {A : Type} (xs : list A) (i : Z) (x y : A) :
  replace_at (replace_at xs i x) i y = replace_at xs i y.
Proof.
  assert (Hpos : forall j, 0 <= j < len xs ->
            replace_at (replace_at xs j x) j y = replace_at xs j y).
  { intros j Hj.
    rewrite (replace_at_nonneg (replace_at xs j x)) by (now rewrite replace_at_len).
    rewrite !replace_at_nonneg by exact Hj. unfold len in Hj.
    set (n := Z.to_nat j). assert (Hn : (n < List.length xs)%nat) by lia.
    assert (Hf : List.length (firstn n xs) = n) by (rewrite length_firstn; lia).
    rewrite firstn_app, Hf, Nat.sub_diag, firstn_O, app_nil_r.
    rewrite firstn_all2 by lia. f_equal. f_equal.
    rewrite skipn_app, Hf.
    rewrite (skipn_all2 (firstn n xs)) by lia.
    replace (S n - n)%nat with 1%nat by lia. reflexivity. }
  destruct (Z_lt_le_dec i 0) as [Hneg | Hnn].
  - destruct (Z_le_gt_dec (- len xs) i) as [Hin | Hout].
    + rewrite (replace_at_neg (replace_at xs i x)) by (rewrite replace_at_len; lia).
      rewrite replace_at_len.
      rewrite (replace_at_neg xs i x), (replace_at_neg xs i y) by lia.
      apply Hpos. lia.
    + assert (E : forall z, replace_at xs i z = xs).
      { intros z. unfold replace_at.
        replace (i <? 0) with true by (symmetry; apply Z.ltb_lt; lia). cbv zeta iota.
        now replace (i + len xs <? 0) with true by (symmetry; apply Z.ltb_lt; lia). }
      now rewrite !E.
  - destruct (Z_lt_le_dec i (len xs)) as [Hin | Hout].
    + apply Hpos. lia.
    + assert (E : forall z, replace_at xs i z = xs).
      { intros z. unfold replace_at.
        replace (i <? 0) with false by (symmetry; apply Z.ltb_ge; lia). cbv zeta iota.
        replace (len xs <=? i) with true by (symmetry; apply Z.leb_le; lia).
        now rewrite orb_true_r. }
      now rewrite !E.
Qed.

Lemma getitem_out_of_range {A : Type} (xs : list A) (i : Z) :
  i < - len xs \/ len xs <= i -> getitem xs i = Raise IndexError.
Proof.
  intros Hi. pose proof (len_nonneg xs) as Hl. unfold getitem.
  destruct (Z.ltb_spec i 0) as [Hneg | Hnn]; cbv zeta iota.
  - now replace (i + len xs <? 0) with true by (symmetry; apply Z.ltb_lt; lia).
  - replace (len xs <=? i) with true by (symmetry; apply Z.leb_le; lia).
    now rewrite orb_true_r.
Qed.

Lemma getitem_in_range {A : Type} (xs : list A) (i : Z) (d : A) :
  - len xs <= i < len xs ->
  getitem xs i = Ok (nth (Z.to_nat (i mod len xs)) xs d).
Proof.
  intros Hi. destruct (Z_lt_le_dec i 0) as [Hneg | Hnn].
  - rewrite getitem_neg by lia. rewrite getitem_nth with (d := d) by lia.
    now replace (i mod len xs) with (i + len xs)
      by (apply Z.mod_unique with (q := -1); lia).
  - rewrite getitem_nth with (d := d) by lia.
    now rewrite Z.mod_small by lia.
Qed.

Lemma replace_at_in_range {A : Type} (xs : list A) (i : Z) (x : A) :
  - len xs <= i < len xs -> replace_at xs i x = replace_at xs (i mod len xs) x.
Proof.
  intros Hi. destruct (Z_lt_le_dec i 0) as [Hneg | Hnn].
  - rewrite replace_at_neg by lia.
    now replace (i mod len xs) with (i + len xs)
      by (apply Z.mod_unique with (q := -1); lia).
  - now rewrite Z.mod_small by lia.
Qed.

Section Dragging.
Context {F : Type} {SF : Scalar F} {MF : Metric F}.

(** The two stores of [on_motion], one after the other. *)
Lemma store_x_then_y (cps : list (point F)) (i : Z) (x y : F) :
  - len cps <= i < len cps ->
  exists p,
    store_x cps i x = Ok (replace_at cps i (Pt x (py p)))
    /\ store_y (replace_at cps i (Pt x (py p))) i y = Ok (replace_at cps i (Pt x y)).
Proof.
  intros Hi. pose proof (len_nonneg cps) as Hl.
  destruct cps as [|d rest] eqn:E; [cbn in Hi; lia|]. rewrite <- E in *. clear E.
  set (j := i mod len cps).
  assert (Hj : 0 <= j < len cps) by (apply Z.mod_pos_bound; lia).
  exists (nth (Z.to_nat j) cps d). unfold store_x, store_y.
  rewrite (getitem_in_range cps i d Hi). fold j. cbn [bind]. split; [reflexivity|].
  rewrite (getitem_in_range _ i d) by (now rewrite replace_at_len).
  rewrite replace_at_len. fold j. cbn [bind].
  rewrite (replace_at_in_range cps i _ Hi). fold j.
  rewrite replace_at_nth by (trivial; unfold len in Hj; lia).
  rewrite Nat.eqb_refl. cbn [px].
  rewrite <- (replace_at_in_range cps i _ Hi).
  now rewrite replace_at_twice.
Qed.

Lemma store_x_fails (cps : list (point F)) (i : Z) (x : F) :
  i < - len cps \/ len cps <= i -> store_x cps i x = Raise IndexError.
Proof. intros Hi. unfold store_x. now rewrite getitem_out_of_range. Qed.

Lemma nb_on_motion_ok (event : mouse_event F) (s : session F) (i : Z) :
  dragging_point s = Some i ->
  is_ax (inaxes event) = true ->
  - len (control_points (scene s)) <= i < len (control_points (scene s)) ->
  let cps' :=
    replace_at (control_points (scene s)) i (Pt (xdata event) (ydata event)) in
  nb.on_motion event s
  = (Ok tt, Session (World cps' [map (curve_point cps') (params 100)]
                           (stdout (scene s))) (Some i)).
Proof.
  intros Hd Hax Hi cps'.
  destruct (store_x_then_y (control_points (scene s)) i (xdata event) (ydata event) Hi)
    as [p [Hx Hy]].
  unfold nb.on_motion. rewrite Hd, Hax. cbn [negb].
  unfold in_scene, wbind, get_control_points, lift, set_control_points.
  rewrite Hx. cbn [control_points plotted stdout]. rewrite Hy.
  cbn [control_points plotted stdout]. fold cps'.
  rewrite nb_draw_scene_ok; cbn [control_points plotted stdout]; [now rewrite Hd|].
  intros E. pose proof (replace_at_len (control_points (scene s)) i
                          (Pt (xdata event) (ydata event))) as Hl.
  fold cps' in Hl. rewrite E in Hl. cbn in Hl. lia.
Qed.

Context {LF : Limits F}.

Lemma pb_on_motion_ok (event : mouse_event F) (s : session F) (i : Z) :
  dragging_point s = Some i ->
  is_ax (inaxes event) = true ->
  - len (control_points (scene s)) <= i < len (control_points (scene s)) ->
  let cps' :=
    replace_at (control_points (scene s)) i (Pt (xdata event) (ydata event)) in
  pb.on_motion event s
  = (pb.set_axis_properties cps',
     Session (World cps'
                (map (segment_curve cps' 100) (range ((len cps' - 1) / 3)))
                (stdout (scene s))) (Some i)).
Proof.
  intros Hd Hax Hi cps'.
  destruct (store_x_then_y (control_points (scene s)) i (xdata event) (ydata event) Hi)
    as [p [Hx Hy]].
  unfold pb.on_motion. rewrite Hd, Hax. cbn [negb].
  unfold in_scene, wbind, get_control_points, lift, set_control_points.
  rewrite Hx. cbn [control_points plotted stdout]. rewrite Hy.
  cbn [control_points plotted stdout]. fold cps'.
  rewrite pb_draw_scene_ok. cbn [control_points plotted stdout].
  now rewrite Hd.
Qed.

Lemma nb_on_press_picks (event : mouse_event F) (s : session F) :
  is_ax (inaxes event) = true ->
  nb.on_press event s
  = (Ok tt, Session (scene s)
              (for_first (enumerate (control_points (scene s))) (dragging_point s)
                 (fun '(i, point) => near event point)
                 (fun '(i, point) => Some i))).
Proof. intros Hax. unfold nb.on_press. rewrite Hax. reflexivity. Qed.

Lemma pb_on_press_is_nb (event : mouse_event F) (s : session F) :
  pb.on_press event s = nb.on_press event s.
Proof. reflexivity. Qed.

End Dragging.

(** X18.  A press outside the plotting area does nothing.  A press inside
    never changes the control points; it picks the first control point, in
    list order, that is less than the radius away from the pointer, and when
    there is none, [dragging_point] stays what it was (it is not reset).
    [pb.py] has the same handler. *)
Theorem on_press_picks_first_near {F : Type} {SF : Scalar F} {MF : Metric F}
  (event : mouse_event F) (s : session F) :
  let cps := control_points (scene s) in
  pb.on_press event s = nb.on_press event s
  /\ exists picked,
       nb.on_press event s = (Ok tt, Session (scene s) picked)
       /\ ((picked = dragging_point s
            /\ (is_ax (inaxes event) = false
                \/ forall point, In point cps -> near event point = false))
           \/ (is_ax (inaxes event) = true
               /\ exists i point,
                    picked = Some i
                    /\ 0 <= i < len cps
                    /\ getitem cps i = Ok point
                    /\ near event point = true
                    /\ forall j earlier, 0 <= j < i -> getitem cps j = Ok earlier ->
                         near event earlier = false)).
Proof.
  cbv zeta. split; [reflexivity|].
  destruct (is_ax (inaxes event)) eqn:Hax.
  - rewrite (nb_on_press_picks event s Hax). eexists. split; [reflexivity|].
    destruct (control_points (scene s)) as [|d rest] eqn:E.
    { left. split; [reflexivity | right; intros point []]. }
    rewrite <- E. clear E.
    destruct (pick_first (control_points (scene s)) (dragging_point s) (near event) d)
      as [[Hs Hall] | [k [Hk [Hhit [Hbefore Hpick]]]]].
    + left. split; [exact Hs | right; exact Hall].
    + right. split; [reflexivity|].
      exists (Z.of_nat k), (nth k (control_points (scene s)) d).
      split; [exact Hpick|]. split; [unfold len; lia|]. split.
      * rewrite getitem_nth with (d := d) by (unfold len; lia). now rewrite Nat2Z.id.
      * split; [exact Hhit|]. intros j earlier Hj Hget.
        rewrite getitem_nth with (d := d) in Hget by (unfold len; lia).
        injection Hget as <-. apply Hbefore. lia.
  - exists (dragging_point s). split.
    + unfold nb.on_press. rewrite Hax. cbn [negb]. now destruct s.
    + left. split; [reflexivity | now left].
Qed.



(** In double precision: dragging a point of the chain [pb.py] starts with
    to [(2.5, 1.0)] returns; dragging it to an infinite abscissa moves the
    point and raises [ValueError]. *)
Lemma pb_on_motion_returns_or_raises :
  let s : session float :=
    Session (World [Pt 1 2; Pt 2 3.5; Pt 3 3.5; Pt 4 2]%float [] []) (Some 2) in
  fst (pb.on_motion (MouseEvent (Some MainAxes) 2.5%float 1%float) s) = Ok tt
  /\ fst (pb.on_motion (MouseEvent (Some MainAxes) infinity 1%float) s)
     = Raise ValueError
  /\ control_points
       (scene (snd (pb.on_motion (MouseEvent (Some MainAxes) infinity 1%float) s)))
     = [Pt 1 2; Pt 2 3.5; Pt infinity 1; Pt 4 2]%float.
Proof. cbv zeta. repeat split; vm_compute; reflexivity. Qed.

(** X20.  A motion does nothing while no point is dragged or the pointer is
    outside the plotting area.  Otherwise it raises [IndexError] exactly
    when the dragged index is not an index of the list, and then nothing
    has changed.  On an index of the list [nb.py] returns, and [pb.py]
    returns or raises [ValueError] from drawing the scene, never
    [IndexError]. *)
Theorem on_motion_idle_or_fails {F : Type} {SF : Scalar F} {LF : Limits F}
  (event : mouse_event F) (s : session F) :
  let n := len (control_points (scene s)) in
  match dragging_point s with
  | None => nb.on_motion event s = (Ok tt, s) /\ pb.on_motion event s = (Ok tt, s)
  | Some i =>
      if negb (is_ax (inaxes event))
      then nb.on_motion event s = (Ok tt, s) /\ pb.on_motion event s = (Ok tt, s)
      else if (i <? - n) || (n <=? i)
      then nb.on_motion event s = (Raise IndexError, s)
           /\ pb.on_motion event s = (Raise IndexError, s)
      else fst (nb.on_motion event s) = Ok tt
           /\ fst (pb.on_motion event s)
              = pb.set_axis_properties
                  (replace_at (control_points (scene s)) i
                     (Pt (xdata event) (ydata event)))
           /\ (fst (pb.on_motion event s) = Ok tt
               \/ fst (pb.on_motion event s) = Raise ValueError)
  end.
Proof.
  cbv zeta. destruct (dragging_point s) as [i|] eqn:Hd.
  - destruct (is_ax (inaxes event)) eqn:Hax; cbn [negb].
    + destruct (Z.ltb_spec i (- len (control_points (scene s)))) as [Hlow | Hlow];
        [|destruct (Z.leb_spec (len (control_points (scene s))) i) as [Hhigh | Hhigh]];
        cbn [orb].
      * unfold nb.on_motion, pb.on_motion. rewrite Hd, Hax. cbn [negb].
        unfold in_scene, wbind, get_control_points, lift.
        rewrite store_x_fails by lia. clear Hd. now destruct s.
      * unfold nb.on_motion, pb.on_motion. rewrite Hd, Hax. cbn [negb].
        unfold in_scene, wbind, get_control_points, lift.
        rewrite store_x_fails by lia. clear Hd. now destruct s.
      * rewrite (nb_on_motion_ok event s i Hd Hax) by lia.
        rewrite (pb_on_motion_ok event s i Hd Hax) by lia. cbn [fst].
        split; [reflexivity|]. split; [reflexivity|].
        apply set_axis_properties_cases.
    + unfold nb.on_motion, pb.on_motion. rewrite Hd, Hax. split; reflexivity.
  - unfold nb.on_motion, pb.on_motion. rewrite Hd. split; reflexivity.
Qed.

(** X21.  Press, drag, release: a press near a control point (and near no
    earlier one), a motion and a release, all inside the plotting area,
    leave the control points with that one point moved to where the motion
    ended, the curve drawn from them, and no point dragged. *)
Theorem press_drag_release {F : Type} {SF : Scalar F} {MF : Metric F}
  (press motion release : mouse_event F) (s : session F) (i : Z) (point : point F) :
  is_ax (inaxes press) = true ->
  is_ax (inaxes motion) = true ->
  0 <= i ->
  getitem (control_points (scene s)) i = Ok point ->
  near press point = true ->
  (forall j earlier, 0 <= j < i -> getitem (control_points (scene s)) j = Ok earlier ->
     near press earlier = false) ->
  let cps' :=
    replace_at (control_points (scene s)) i (Pt (xdata motion) (ydata motion)) in
  exists s1 s2,
    nb.on_press press s = (Ok tt, s1)
    /\ nb.on_motion motion s1 = (Ok tt, s2)
    /\ nb.on_release release s2
       = (Ok tt, Session (World cps' [map (curve_point cps') (params 100)]
                                (stdout (scene s))) None).
Proof.
  intros Hpress Hmotion Hi Hget Hnear Hearlier cps'.
  set (cps := control_points (scene s)) in *.
  assert (Hlen : i < len cps).
  { destruct (Z_lt_le_dec i (len cps)) as [Hlt | Hge]; [exact Hlt|].
    rewrite getitem_out_of_range in Hget by lia. discriminate Hget. }
  assert (Hpoint : point = nth (Z.to_nat i) cps point).
  { rewrite getitem_nth with (d := point) in Hget by lia. congruence. }
  assert (Hpick : for_first (enumerate cps) (dragging_point s)
                    (fun '(i, point) => near press point)
                    (fun '(i, point) => Some i) = Some i).
  { destruct (pick_first cps (dragging_point s) (near press) point)
      as [[_ Hall] | [k [Hk [Hhit [Hbefore Hpick]]]]].
    - assert (Hin : In point cps)
        by (rewrite Hpoint; apply nth_In; unfold len in Hlen; lia).
      rewrite (Hall point Hin) in Hnear. discriminate Hnear.
    - rewrite Hpick. f_equal.
      destruct (Z.lt_trichotomy (Z.of_nat k) i) as [Hlt | [Heq | Hgt]]; [|exact Heq|].
      + rewrite (Hearlier (Z.of_nat k) (nth k cps point)) in Hhit;
          [discriminate Hhit | lia |].
        rewrite getitem_nth with (d := point) by (unfold len; lia).
        now rewrite Nat2Z.id.
      + assert (Hb : near press (nth (Z.to_nat i) cps point) = false)
          by (apply Hbefore; lia).
        rewrite <- Hpoint in Hb. congruence. }
  exists (Session (scene s) (Some i)).
  eexists. split.
  - rewrite (nb_on_press_picks press s Hpress). fold cps. now rewrite Hpick.
  - split.
    + apply nb_on_motion_ok; cbn [scene dragging_point]; trivial. fold cps. lia.
    + reflexivity.
Qed.

(** The squares of this example are exact ([0.0625 ** 2] is [2^-8]), so
    that the product [x * x] is what [x ** 2] gives. *)
Lemma press_drag_release_witness :
  let metric : Metric float := binary64_metric (fun x => PrimFloat.mul x x) in
  let s : session float :=
    Session (World [Pt 1 2; Pt 2 3.5; Pt 3 3.5; Pt 4 2]%float [] []) None in
  let press := MouseEvent (Some MainAxes) 2.9375%float 3.4375%float in
  let motion := MouseEvent (Some MainAxes) 2.5%float 1%float in
  let release := MouseEvent (Some MainAxes) 2.5%float 1%float in
  let point : point float := Pt 3%float 3.5%float in
  let cps' := replace_at (control_points (scene s)) 2 (Pt (xdata motion) (ydata motion)) in
  (is_ax (inaxes press) = true
   /\ is_ax (inaxes motion) = true
   /\ getitem (control_points (scene s)) 2 = Ok point
   /\ near press point = true)
  /\ exists s1 s2,
       nb.on_press press s = (Ok tt, s1)
       /\ nb.on_motion motion s1 = (Ok tt, s2)
       /\ nb.on_release release s2
          = (Ok tt, Session (World cps' [map (curve_point cps') (params 100)]
                                   (stdout (scene s))) None).
Proof.
  cbv zeta. split; [repeat split|].
  apply (@press_drag_release float binary64
           (binary64_metric (fun x => PrimFloat.mul x x))
           (MouseEvent (Some MainAxes) 2.9375%float 3.4375%float)
           (MouseEvent (Some MainAxes) 2.5%float 1%float)
           (MouseEvent (Some MainAxes) 2.5%float 1%float)
           (Session (World [Pt 1 2; Pt 2 3.5; Pt 3 3.5; Pt 4 2]%float [] []) None)
           2 (Pt 3 3.5)%float); [reflexivity | reflexivity | lia | reflexivity | reflexivity |].
  intros j earlier Hj Hget.
  assert (Hc : j = 0 \/ j = 1) by lia.
  destruct Hc as [-> | ->]; injection Hget as <-; reflexivity.
Defined.

(** ** Local control of the piecewise curve *)

Section LocalControl.
Context {F : Type} {SF : Scalar F}.

Lemma segment_agrees (cps cps' : list (point F)) (k : nat) :
  List.length cps' = List.length cps ->
  (forall j, 3 * Z.of_nat k <= j <= 3 * Z.of_nat k + 3 ->
     getitem cps' j = getitem cps j) ->
  (3 * k + 4 <= List.length cps)%nat ->
  segment cps' k = segment cps k.
Proof.
  intros Hlen Hagree Hk. unfold segment.
  destruct cps as [|d rest] eqn:E; [cbn in Hk; lia|]. rewrite <- E in *. clear E rest.
  apply nth_ext with (d := d) (d' := d).
  - rewrite !length_firstn, !length_skipn. lia.
  - intros i Hi. rewrite length_firstn, length_skipn in Hi.
    rewrite !nth_firstn.
    replace (i <? 4)%nat with true by (symmetry; apply Nat.ltb_lt; lia).
    rewrite !nth_skipn.
    assert (Hj : 3 * Z.of_nat k <= Z.of_nat (3 * k + i) <= 3 * Z.of_nat k + 3) by lia.
    specialize (Hagree _ Hj).
    rewrite !getitem_nth with (d := d) in Hagree by (unfold len; lia).
    rewrite Nat2Z.id in Hagree. congruence.
Qed.

End LocalControl.

(** X22.  Local control: when two chains of the same length agree on the
    four control points of segment [k], the piecewise sampler returns for
    both, and the [n] samples of segment [k] are the same in both curves,
    whatever the other control points are. *)
Theorem piecewise_local_control {F : Type} {SF : Scalar F}
  (cps cps' : list (point F)) (n k : Z) :
  2 <= n ->
  len cps' = len cps ->
  0 <= k < (len cps - 1) / 3 ->
  (forall j, 3 * k <= j <= 3 * k + 3 -> getitem cps' j = getitem cps j) ->
  exists curve curve',
    tc.generate_piecewise_bezier cps n = Ok curve
    /\ tc.generate_piecewise_bezier cps' n = Ok curve'
    /\ forall m, 0 <= m < n ->
         getitem curve' (k * n + m) = getitem curve (k * n + m)
         /\ exists p, getitem curve (k * n + m) = Ok p.
Proof.
  intros Hn Hlen Hk Hagree.
  exists (concat (map (segment_curve cps n) (range ((len cps - 1) / 3)))),
         (concat (map (segment_curve cps' n) (range ((len cps' - 1) / 3)))).
  split; [apply sample_piecewise; lia|]. split; [apply sample_piecewise; lia|].
  intros m Hm.
  assert (Hne : cps <> []) by (intros E; rewrite E in Hk; cbn in Hk; lia).
  pose proof (complete_segments_bound cps Hne) as [_ Hb].
  destruct cps as [|d rest] eqn:E; [congruence|]. rewrite <- E in *. clear E rest.
  rewrite (piecewise_block cps' n k m d) by (rewrite ?Hlen; lia).
  rewrite (piecewise_block cps n k m d) by lia.
  rewrite (segment_agrees cps cps' (Z.to_nat k)).
  - split; [reflexivity | eexists; reflexivity].
  - unfold len in Hlen. lia.
  - intros j Hj. apply Hagree. lia.
  - unfold len in *. lia.
Qed.

Lemma piecewise_local_control_witness :
  let cps : list (point float) :=
    [Pt 1 2; Pt 2 3.5; Pt 3 3.5; Pt 4 2; Pt 5 0.5; Pt 6 0.5; Pt 7 2]%float in
  let cps' : list (point float) :=
    [Pt 1 9; Pt 2 3.5; Pt 3 3.5; Pt 4 2; Pt 5 0.5; Pt 6 0.5; Pt 7 2]%float in
  (len cps' = len cps /\ 0 <= 1 < (len cps - 1) / 3)
  /\ exists curve curve',
       tc.generate_piecewise_bezier cps 3 = Ok curve
       /\ tc.generate_piecewise_bezier cps' 3 = Ok curve'
       /\ forall m, 0 <= m < 3 ->
            getitem curve' (1 * 3 + m) = getitem curve (1 * 3 + m)
            /\ exists p, getitem curve (1 * 3 + m) = Ok p.
Proof.
  cbv zeta. split; [split; [reflexivity | split; [lia | reflexivity]]|].
  apply (@piecewise_local_control float binary64
           [Pt 1 2; Pt 2 3.5; Pt 3 3.5; Pt 4 2; Pt 5 0.5; Pt 6 0.5; Pt 7 2]%float
           [Pt 1 9; Pt 2 3.5; Pt 3 3.5; Pt 4 2; Pt 5 0.5; Pt 6 0.5; Pt 7 2]%float
           3 1); [lia | reflexivity | split; [lia | reflexivity] |].
  intros j Hj.
  assert (Hc : j = 3 \/ j = 4 \/ j = 5 \/ j = 6) by lia.
  destruct Hc as [-> | [-> | [-> | ->]]]; reflexivity.
Defined.

(** ** The evaluator over the rationals: symmetry, affine maps, the first
    point moved, the bounding box *)

Lemma lcexp_general_is_nb {F : Type} {SF : Scalar F}
  (control_points : list (point F)) (t : F) :
  lcexp.de_casteljau_general control_points t
  = nb.de_casteljau_general control_points t.
Proof. reflexivity. Qed.

Lemma general_raises_nil {F : Type} {SF : Scalar F} (t : F) :
  nb.de_casteljau_general (@nil (point F)) t = Raise IndexError.
Proof. reflexivity. Qed.

Lemma iter_level_commute {F : Type} {SF : Scalar F}
  (g : list (point F) -> list (point F)) (s t : F) :
  (forall ps, level s (g ps) = g (level t ps)) ->
  forall k ps, Nat.iter k (level s) (g ps) = g (Nat.iter k (level t) ps).
Proof.
  intros Hg k. induction k as [|k IH]; intros ps; [reflexivity|].
  rewrite !Nat.iter_succ, IH. apply Hg.
Qed.

Lemma Qc_of_int_1 : of_int (F := Qc) 1 = 1%Qc.
Proof. reflexivity. Qed.

Lemma Qc_of_int_0 : of_int (F := Qc) 0 = 0%Qc.
Proof. reflexivity. Qed.

Ltac qc_point :=
  unfold lerp, padd, scale, affine, add_y; cbn [px py];
  rewrite ?Qc_of_int_1, ?Qc_of_int_0; cbn [fadd fsub fmul rationals];
  f_equal; ring.

Lemma lerp_reversed (t : Qc) (a b : point Qc) :
  lerp (fsub (of_int 1) t) b a = lerp t a b.
Proof. qc_point. Qed.

Lemma level_app_one (t : Qc) (ps : list (point Qc)) (a b : point Qc) :
  level t (ps ++ [a; b]) = level t (ps ++ [a]) ++ [lerp t a b].
Proof.
  induction ps as [|p ps IH]; [reflexivity|].
  destruct ps as [|q ps]; [reflexivity|].
  change (level t ((p :: q :: ps) ++ [a; b]))
    with (lerp t p q :: level t ((q :: ps) ++ [a; b])).
  rewrite IH. reflexivity.
Qed.

Lemma level_reversed (t : Qc) (ps : list (point Qc)) :
  level (fsub (of_int 1) t) (rev ps) = rev (level t ps).
Proof.
  induction ps as [|a ps IH]; [reflexivity|].
  destruct ps as [|b ps]; [reflexivity|].
  change (level t (a :: b :: ps)) with (lerp t a b :: level t (b :: ps)).
  cbn [rev] in *. rewrite <- IH, <- app_assoc. cbn [app].
  rewrite level_app_one. now rewrite lerp_reversed.
Qed.

Lemma level_affine (a b c d e f t : Qc) (ps : list (point Qc)) :
  level t (map (affine a b c d e f) ps) = map (affine a b c d e f) (level t ps).
Proof.
  induction ps as [|p ps IH]; [reflexivity|].
  destruct ps as [|q ps]; [reflexivity|].
  change (level t (p :: q :: ps)) with (lerp t p q :: level t (q :: ps)).
  cbn [map] in *. rewrite <- IH. cbn [level]. f_equal. qc_point.
Qed.

(** The first point of a list moved by a vector. *)
Lemma level_first_moved (t : Qc) (p q v : point Qc) (ps : list (point Qc)) :
  level t (padd p v :: q :: ps)
  = padd (lerp t p q) (scale (fsub (of_int 1) t) v) :: level t (q :: ps).
Proof. cbn [level]. f_equal. qc_point. Qed.

Lemma iter_level_first_moved (t : Qc) (k : nat) :
  forall (p v : point Qc) (ps : list (point Qc)),
    (k <= List.length ps)%nat ->
    exists p' ps',
      Nat.iter k (level t) (p :: ps) = p' :: ps'
      /\ Nat.iter k (level t) (padd p v :: ps)
         = padd p' (scale (Qcpower (fsub (of_int 1) t) k) v) :: ps'.
Proof.
  induction k as [|k IH]; intros p v ps Hk.
  - exists p, ps. split; [reflexivity|]. cbn [Nat.iter nat_rect Qcpower]. do 2 f_equal.
    destruct v as [vx vy]. unfold scale. cbn [px py fmul rationals]. f_equal; ring.
  - destruct ps as [|q ps]; [cbn in Hk; lia|].
    rewrite !Nat.iter_succ_r. rewrite level_first_moved.
    change (level t (p :: q :: ps)) with (lerp t p q :: level t (q :: ps)).
    destruct (IH (lerp t p q) (scale (fsub (of_int 1) t) v) (level t (q :: ps)))
      as [p' [ps' [H1 H2]]].
    { pose proof (level_length t (q :: ps)) as Hl. cbn [List.length] in *. lia. }
    exists p', ps'. split; [exact H1|]. rewrite H2. do 2 f_equal.
    destruct v as [vx vy]. unfold scale. cbn [px py fmul rationals Qcpower].
    f_equal; ring.
Qed.

Lemma lerp_between (t lo hi : Qc) (a b : Qc) :
  (0 <= t)%Qc -> (t <= 1)%Qc ->
  (lo <= a)%Qc -> (a <= hi)%Qc -> (lo <= b)%Qc -> (b <= hi)%Qc ->
  (lo <= (1 - t) * a + t * b)%Qc /\ ((1 - t) * a + t * b <= hi)%Qc.
Proof.
  intros Ht0 Ht1 Ha1 Ha2 Hb1 Hb2.
  assert (Hs : (0 <= 1 - t)%Qc).
  { replace 0%Qc with (t - t)%Qc by ring. unfold Qcminus.
    apply Qcplus_le_compat; [exact Ht1 | apply Qcle_refl]. }
  split.
  - replace lo with ((1 - t) * lo + t * lo)%Qc by ring.
    apply Qcplus_le_compat; rewrite !(Qcmult_comm _ lo), ?(Qcmult_comm _ a), ?(Qcmult_comm _ b);
      now apply Qcmult_le_compat_r.
  - replace hi with ((1 - t) * hi + t * hi)%Qc by ring.
    apply Qcplus_le_compat; rewrite !(Qcmult_comm _ hi), ?(Qcmult_comm _ a), ?(Qcmult_comm _ b);
      now apply Qcmult_le_compat_r.
Qed.

(** A point inside an axis-parallel box. *)
Lemma level_in_box (t xlo xhi ylo yhi : Qc) (ps : list (point Qc)) :
  (0 <= t)%Qc -> (t <= 1)%Qc ->
  Forall (fun p => (xlo <= px p)%Qc /\ (px p <= xhi)%Qc
                   /\ (ylo <= py p)%Qc /\ (py p <= yhi)%Qc) ps ->
  Forall (fun p => (xlo <= px p)%Qc /\ (px p <= xhi)%Qc
                   /\ (ylo <= py p)%Qc /\ (py p <= yhi)%Qc) (level t ps).
Proof.
  intros Ht0 Ht1. induction ps as [|a ps IH]; intros Hall; [constructor|].
  destruct ps as [|b ps]; [constructor|].
  change (level t (a :: b :: ps)) with (lerp t a b :: level t (b :: ps)).
  inversion Hall as [|? ? Ha Hrest]; subst.
  constructor; [|now apply IH].
  inversion Hrest as [|? ? Hb _]; subst.
  destruct Ha as [Ha1 [Ha2 [Ha3 Ha4]]], Hb as [Hb1 [Hb2 [Hb3 Hb4]]].
  unfold lerp, padd, scale. cbn [px py]. rewrite Qc_of_int_1.
  cbn [fadd fsub fmul rationals].
  destruct (lerp_between t xlo xhi (px a) (px b)) as [X1 X2]; trivial.
  destruct (lerp_between t ylo yhi (py a) (py b)) as [Y1 Y2]; trivial.
  repeat split; assumption.
Qed.

Lemma iter_level_in_box (t xlo xhi ylo yhi : Qc) (k : nat) (ps : list (point Qc)) :
  (0 <= t)%Qc -> (t <= 1)%Qc ->
  Forall (fun p => (xlo <= px p)%Qc /\ (px p <= xhi)%Qc
                   /\ (ylo <= py p)%Qc /\ (py p <= yhi)%Qc) ps ->
  Forall (fun p => (xlo <= px p)%Qc /\ (px p <= xhi)%Qc
                   /\ (ylo <= py p)%Qc /\ (py p <= yhi)%Qc)
         (Nat.iter k (level t) ps).
Proof.
  intros Ht0 Ht1 Hall. induction k as [|k IH]; [exact Hall|].
  rewrite Nat.iter_succ. now apply level_in_box.
Qed.

(** X23.  Symmetry, over the rationals: the control points in reverse order
    evaluated at [1 - t] give what the control points give at [t] (and both
    calls fail on no control point). *)
Theorem evaluator_reversed (control_points : list (point Qc)) (t : Qc) :
  nb.de_casteljau_general (rev control_points) (fsub (of_int 1) t)
  = nb.de_casteljau_general control_points t.
Proof.
  destruct control_points as [|d rest] eqn:E; [reflexivity|]. rewrite <- E.
  assert (Hne : control_points <> []) by (rewrite E; discriminate).
  assert (Hne' : rev control_points <> []).
  { intros E'. apply (f_equal (@List.length _)) in E'. rewrite length_rev, E in E'.
    discriminate E'. }
  rewrite !general_curve_point by assumption. f_equal.
  unfold curve_point, levels. rewrite length_rev.
  rewrite (iter_level_commute (@rev _) _ t) by (intros ps; apply level_reversed).
  pose proof (levels_length t control_points Hne) as Hl. unfold levels in Hl.
  destruct (Nat.iter _ _ control_points) as [|p [|q l]]; [discriminate Hl | reflexivity | discriminate Hl].
Qed.

(** X24.  Affine invariance, over the rationals: evaluating the images of
    the control points under an affine map gives the image of the point the
    evaluator gives on the control points themselves; the one call fails
    when the other does. *)
Theorem evaluator_affine_invariant (a b c d e f : Qc)
  (control_points : list (point Qc)) (t : Qc) :
  nb.de_casteljau_general (map (affine a b c d e f) control_points) t
  = match nb.de_casteljau_general control_points t with
    | Ok p => Ok (affine a b c d e f p)
    | Raise err => Raise err
    end.
Proof.
  destruct control_points as [|p0 rest] eqn:E; [reflexivity|]. rewrite <- E.
  assert (Hne : control_points <> []) by (rewrite E; discriminate).
  assert (Hne' : map (affine a b c d e f) control_points <> [])
    by (rewrite E; discriminate).
  rewrite !general_curve_point by assumption. f_equal.
  unfold curve_point, levels. rewrite length_map.
  rewrite (iter_level_commute (map (affine a b c d e f)) t t)
    by (intros ps; apply level_affine).
  pose proof (levels_length t control_points Hne) as Hl. unfold levels in Hl.
  destruct (Nat.iter _ _ control_points) as [|p [|q l]];
    [discriminate Hl | reflexivity | discriminate Hl].
Qed.

(** X25.  The first control point moved, over the rationals: raising the
    first of [n + 1] control points by [shift] raises the point of the curve
    at [t] by [(1 - t)^n * shift] and leaves its abscissa alone.  This is
    the displacement the local-control experiment measures. *)
Theorem first_point_shift (p0 : point Qc) (rest : list (point Qc))
  (shift t : Qc) :
  exists p,
    lcexp.de_casteljau_general (p0 :: rest) t = Ok p
    /\ nb.de_casteljau_general (p0 :: rest) t = Ok p
    /\ lcexp.de_casteljau_general (add_y p0 shift :: rest) t
       = Ok (add_y p (Qcpower (fsub (of_int 1) t) (List.length rest) * shift)%Qc).
Proof.
  rewrite !lcexp_general_is_nb, !general_curve_point by discriminate.
  exists (curve_point (p0 :: rest) t). split; [reflexivity|]. split; [reflexivity|].
  f_equal. unfold curve_point, levels.
  replace (List.length (add_y p0 shift :: rest) - 1)%nat with (List.length rest)
    by (cbn [List.length]; lia).
  replace (List.length (p0 :: rest) - 1)%nat with (List.length rest)
    by (cbn [List.length]; lia).
  destruct (iter_level_first_moved t (List.length rest) p0 (Pt 0%Qc shift) rest)
    as [p' [ps' [H1 H2]]]; [lia|].
  replace (add_y p0 shift) with (padd p0 (Pt 0%Qc shift)).
  - rewrite H1, H2. destruct p' as [x y].
    unfold add_y, padd, scale. cbn [px py fadd fmul rationals]. f_equal. ring.
  - destruct p0 as [x y]. unfold add_y, padd. cbn [px py fadd rationals].
    f_equal. ring.
Qed.

(** X26.  The bounding box, over the rationals: for [0 <= t <= 1] the point
    the evaluator returns lies in every axis-parallel box that holds the
    control points. *)
Theorem evaluator_in_bounding_box (control_points : list (point Qc))
  (t xlo xhi ylo yhi : Qc) :
  control_points <> [] ->
  (0 <= t)%Qc -> (t <= 1)%Qc ->
  (forall q, In q control_points ->
     (xlo <= px q)%Qc /\ (px q <= xhi)%Qc /\ (ylo <= py q)%Qc /\ (py q <= yhi)%Qc) ->
  exists p,
    nb.de_casteljau_general control_points t = Ok p
    /\ (xlo <= px p)%Qc /\ (px p <= xhi)%Qc /\ (ylo <= py p)%Qc /\ (py p <= yhi)%Qc.
Proof.
  intros Hne Ht0 Ht1 Hbox.
  exists (curve_point control_points t).
  split; [now apply general_curve_point|].
  pose proof (iter_level_in_box t xlo xhi ylo yhi (List.length control_points - 1)
                control_points Ht0 Ht1) as Hall.
  specialize (Hall (proj2 (Forall_forall _ _) Hbox)).
  pose proof (levels_length t control_points Hne) as Hl.
  unfold curve_point, levels in *.
  destruct (Nat.iter _ _ control_points) as [|p l]; [discriminate Hl|].
  now inversion Hall.
Qed.

Lemma evaluator_in_bounding_box_witness :
  let cps : list (point Qc) :=
    [Pt (Q2Qc 1) (Q2Qc 2); Pt (Q2Qc 2) (Q2Qc (7 # 2));
     Pt (Q2Qc 3) (Q2Qc (7 # 2)); Pt (Q2Qc 4) (Q2Qc 2)] in
  let t := Q2Qc (1 # 4) in
  (cps <> [] /\ (0 <= t)%Qc /\ (t <= 1)%Qc)
  /\ exists p,
       nb.de_casteljau_general cps t = Ok p
       /\ (Q2Qc 1 <= px p)%Qc /\ (px p <= Q2Qc 4)%Qc
       /\ (Q2Qc 2 <= py p)%Qc /\ (py p <= Q2Qc (7 # 2))%Qc.
Proof.
  cbv zeta. split.
  - split; [discriminate | split; discriminate].
  - apply (evaluator_in_bounding_box
             [Pt (Q2Qc 1) (Q2Qc 2); Pt (Q2Qc 2) (Q2Qc (7 # 2));
              Pt (Q2Qc 3) (Q2Qc (7 # 2)); Pt (Q2Qc 4) (Q2Qc 2)]
             (Q2Qc (1 # 4)) (Q2Qc 1) (Q2Qc 4) (Q2Qc 2) (Q2Qc (7 # 2))).
    + discriminate.
    + discriminate.
    + discriminate.
    + intros q Hq. cbn [In] in Hq.
      destruct Hq as [<- | [<- | [<- | [<- | []]]]]; cbn [px py];
        repeat split; discriminate.
Defined.

(** ** The control points of a segment *)

Lemma getitem_cases {A : Type} (xs : list A) (j : Z) (d : A) :
  0 <= j ->
  (j < len xs /\ getitem xs j = Ok (nth (Z.to_nat j) xs d))
  \/ (len xs <= j /\ getitem xs j = Raise IndexError).
Proof.
  intros Hj. destruct (Z_lt_le_dec j (len xs)) as [Hlt | Hge].
  - left. split; [exact Hlt | apply getitem_nth; lia].
  - right. split; [exact Hge | apply getitem_out_of_range; lia].
Qed.

(** X27.  [get_segment_control_points(k)] for [k >= 0] returns exactly when
    [k] is below [get_num_segments()]: then it gives the four points at the
    indices [3k .. 3k + 3], so that the last point of a segment is the first
    point of the next; from [get_num_segments()] on it raises [IndexError].
    The control points are never changed. *)
Theorem segment_control_points_in_range {F : Type} {SF : Scalar F}
  (w : world F) (k : Z) :
  0 <= k ->
  let cps := control_points w in
  fst (pb.get_num_segments w) = Ok ((len cps - 1) / 3)
  /\ if k <? (len cps - 1) / 3
     then exists p0 p1 p2 p3,
            pb.get_segment_control_points k w = (Ok (p0, p1, p2, p3), w)
            /\ segment cps (Z.to_nat k) = [p0; p1; p2; p3]
            /\ getitem cps (3 * k) = Ok p0
            /\ getitem cps (3 * (k + 1)) = Ok p3
     else pb.get_segment_control_points k w = (Raise IndexError, w).
Proof.
  intros Hk cps. split; [reflexivity|].
  unfold pb.get_segment_control_points, wbind, get_control_points, lift, ret.
  fold cps. clearbody cps.
  assert (Hdiv : 3 * ((len cps - 1) / 3) <= len cps - 1 < 3 * ((len cps - 1) / 3) + 3).
  { pose proof (Z.div_mod (len cps - 1) 3 ltac:(lia)) as Hdm.
    pose proof (Z.mod_pos_bound (len cps - 1) 3 ltac:(lia)) as Hmod. lia. }
  remember ((len cps - 1) / 3) as N eqn:EN. clear EN.
  destruct (Z.ltb_spec k N) as [Hin | Hout].
  - assert (Hlen : 3 * k + 3 < len cps) by lia.
    destruct cps as [|d rest] eqn:E;
      [change (len (@nil (point F))) with 0 in Hlen; lia|].
    rewrite <- E in *. clear E rest.
    exists (nth (Z.to_nat (3 * k)) cps d), (nth (Z.to_nat (3 * k + 1)) cps d),
           (nth (Z.to_nat (3 * k + 2)) cps d), (nth (Z.to_nat (3 * k + 3)) cps d).
    replace (k * 3) with (3 * k) by lia.
    rewrite !getitem_nth with (d := d) by lia.
    split; [reflexivity|]. split.
    + rewrite (segment_four cps (Z.to_nat k) d) by (unfold len in Hlen; lia).
      repeat f_equal; lia.
    + split; [reflexivity|]. do 2 f_equal. lia.
  - replace (k * 3) with (3 * k) by lia.
    pose proof (len_nonneg cps) as Hl.
    assert (H3 : len cps <= 3 * k + 3) by lia.
    destruct cps as [|d rest] eqn:E; [now rewrite getitem_nil|].
    rewrite <- E in *. clear E rest.
    destruct (getitem_cases cps (3 * k) d) as [[_ ->] | [_ ->]]; [lia| |reflexivity].
    destruct (getitem_cases cps (3 * k + 1) d) as [[_ ->] | [_ ->]]; [lia| |reflexivity].
    destruct (getitem_cases cps (3 * k + 2) d) as [[_ ->] | [_ ->]]; [lia| |reflexivity].
    now rewrite (getitem_out_of_range cps (3 * k + 3)) by lia.
Qed.

Lemma segment_control_points_in_range_witness :
  let w : world float :=
    World [Pt 1 2; Pt 2 3.5; Pt 3 3.5; Pt 4 2; Pt 5 0.5; Pt 6 0.5; Pt 7 2]%float [] [] in
  let cps := control_points w in
  0 <= 1
  /\ fst (pb.get_num_segments w) = Ok ((len cps - 1) / 3)
  /\ if 1 <? (len cps - 1) / 3
     then exists p0 p1 p2 p3,
            pb.get_segment_control_points 1 w = (Ok (p0, p1, p2, p3), w)
            /\ segment cps (Z.to_nat 1) = [p0; p1; p2; p3]
            /\ getitem cps (3 * 1) = Ok p0
            /\ getitem cps (3 * (1 + 1)) = Ok p3
     else pb.get_segment_control_points 1 w = (Raise IndexError, w).
Proof.
  cbv zeta. split; [lia|].
  apply (@segment_control_points_in_range float binary64
           (World [Pt 1 2; Pt 2 3.5; Pt 3 3.5; Pt 4 2; Pt 5 0.5; Pt 6 0.5; Pt 7 2]%float
                  [] []) 1).
  lia.
Defined.

(** ** Drawing the single curve *)

(** X28.  [draw_scene] of [nb.py] forgets what was plotted before.  On at
    least one control point it returns and leaves exactly one curve on the
    axes, the 100 samples of the sampler; on no control point it raises
    [IndexError] after it has cleared the axes.  The control points and the
    output are never changed. *)
Theorem nb_draw_scene_plots {F : Type} {SF : Scalar F} (w : world F) :
  nb.draw_scene w = nb.draw_scene (World (control_points w) [] (stdout w))
  /\ match control_points w with
     | [] => nb.draw_scene w = (Raise IndexError, World [] [] (stdout w))
     | _ :: _ =>
         exists curve,
           nb.draw_scene w = (Ok tt, World (control_points w) [curve] (stdout w))
           /\ nb.generate_bezier_curve (control_points w) 100 = Ok curve
           /\ len curve = 100
           /\ fst (nb.get_degree w) = Ok (len (control_points w) - 1)
     end.
Proof.
  split; [reflexivity|].
  destruct (control_points w) as [|d rest] eqn:E.
  - unfold nb.draw_scene, nb.get_degree, wbind, ax_clear, get_control_points, ret, lift.
    cbn [control_points plotted stdout]. rewrite E. reflexivity.
  - rewrite <- E.
    assert (Hne : control_points w <> []) by (rewrite E; discriminate).
    exists (map (curve_point (control_points w)) (params 100)).
    split; [now apply nb_draw_scene_ok|].
    split; [apply sample_general; [exact Hne | lia]|].
    split; [|reflexivity].
    pose proof (params_length (F := F) 100) as Hp. unfold len in *.
    rewrite length_map. lia.
Qed.
